(** * keychain-env: a shallow embedding of [lib/keychain-env.js]

    The module reads a secure note from the macOS keychain through the
    [security] command line tool, decodes its hexadecimal output, unwraps
    the property list the Keychain Access application puts around a note,
    parses the note with [dotenv] and merges the variables into
    [process.env]; when the note does not exist it can write a template
    note instead.

    JavaScript strings are sequences of UTF-16 code units, modelled as
    [list N]; a [Buffer] or [Uint8Array] is a [list Z] of values below 256;
    [process.env] is a finite map from names to values; thrown exceptions
    and the calls of [execSync] are explicit in a state and exception
    monad. *)

From Stdlib Require Import ZArith NArith Lia Ascii.
From Stdlib.Strings Require Import String Byte.
From stdpp Require Import base option list strings gmap.

Local Open Scope Z_scope.
Set Warnings "-register-all".

(** ** JavaScript strings *)

Abbreviation jsstring := (list N).

(** An ASCII literal as a JavaScript string. *)
Definition js (s : string) : jsstring :=
  map N_of_ascii (list_ascii_of_string s).

Definition backslash : N := 92%N.
Definition dquote : N := 34%N.
Definition dollar : N := 36%N.
Definition backquote : N := 96%N.
Definition newline : N := 10%N.

(** [s] wrapped in double quotes, as the command templates do with ["%s"]. *)
Definition quoted (s : jsstring) : jsstring := [dquote] ++ s ++ [dquote].

(** [String.prototype.slice(from, to)] and [Buffer.prototype.slice(from, to)]
    for indices [0 <= from <= to]: both clamp at the end of the receiver. *)
Definition slice {A} (l : list A) (from to : nat) : list A :=
  take (to - from) (drop from l).

(** [str.startsWith(p)] on code units. *)
Fixpoint startsWith (p s : jsstring) : bool :=
  match p, s with
  | [], _ => true
  | _ :: _, [] => false
  | a :: p', b :: s' => (a =? b)%N && startsWith p' s'
  end.

(** [String.prototype.indexOf(search)] from position 0: the least index at
    which [search] occurs, or [-1]. *)
Fixpoint indexOf_from (search s : jsstring) (pos : Z) : Z :=
  if startsWith search s then pos
  else match s with
       | [] => -1
       | _ :: s' => indexOf_from search s' (pos + 1)
       end.

Definition indexOf (s search : jsstring) : Z := indexOf_from search s 0.

(** ** [parseInt(string, 16)] (ECMAScript, sec. parseInt) *)

(** [StrWhiteSpaceChar]: white space and line terminators. *)
Definition isStrWhiteSpaceChar (c : N) : bool :=
  ((9 <=? c) && (c <=? 13) || (c =? 32) || (c =? 160) || (c =? 0x1680)
   || (0x2000 <=? c) && (c <=? 0x200a) || (c =? 0x2028) || (c =? 0x2029)
   || (c =? 0x202f) || (c =? 0x205f) || (c =? 0x3000) || (c =? 0xfeff))%N.

Fixpoint trimStart (s : jsstring) : jsstring :=
  match s with
  | c :: r => if isStrWhiteSpaceChar c then trimStart r else s
  | [] => []
  end.

(** The value of a radix-16 digit, either case. *)
Definition hexDigitValue (c : N) : option Z :=
  if ((48 <=? c) && (c <=? 57))%N then Some (Z.of_N c - 48)
  else if ((97 <=? c) && (c <=? 102))%N then Some (Z.of_N c - 87)
  else if ((65 <=? c) && (c <=? 70))%N then Some (Z.of_N c - 55)
  else None.

Definition isHexDigit (c : N) : bool := bool_decide (is_Some (hexDigitValue c)).

(** The longest prefix of radix-16 digits, as digit values. *)
Fixpoint digitsPrefix (s : jsstring) : list Z :=
  match s with
  | c :: r => match hexDigitValue c with
              | Some d => d :: digitsPrefix r
              | None => []
              end
  | [] => []
  end.

(** A JavaScript number as far as this module needs it: an integer or
    [NaN].  ([-0] is identified with [0]; both are stored as 0.) *)
Inductive number := Int (z : Z) | NaN.

Definition parseInt16 (s : jsstring) : number :=
  let inputS := trimStart s in
  let '(sign, unsignedS) :=
    match inputS with
    | c :: r => if (c =? 45)%N then (-1, r)
                else if (c =? 43)%N then (1, r) else (1, inputS)
    | [] => (1, inputS)
    end in
  let digitS :=
    match unsignedS with
    | z :: x :: r =>
        if ((z =? 48) && ((x =? 120) || (x =? 88)))%N then r else unsignedS
    | _ => unsignedS
    end in
  match digitsPrefix digitS with
  | [] => NaN
  | ds => Int (sign * fold_left (fun acc d => acc * 16 + d) ds 0)
  end.

(** ** Typed arrays and buffers *)

Abbreviation Uint8Array := (list Z).
Abbreviation Buffer := (list Z).

(** [ToUint8]: the conversion applied by a store into a [Uint8Array]. *)
Definition ToUint8 (x : number) : Z :=
  match x with
  | Int z => z mod 256
  | NaN => 0
  end.

(** [new Uint8Array(len / 2)]: the length argument goes through [ToIndex],
    which truncates a fractional length. *)
Definition new_Uint8Array_half (len : nat) : Uint8Array :=
  replicate (len / 2)%nat 0.

(** [uint8[i] = x]: a store outside the array is ignored. *)
Definition uint8_store (a : Uint8Array) (i : nat) (x : number) : Uint8Array :=
  <[i := ToUint8 x]> a.

(** ** [Buffer.prototype.toString()]: UTF-8 decoding

    The default encoding is ['utf8'].  Decoding follows the WHATWG UTF-8
    decoder: every maximal ill-formed subsequence becomes one U+FFFD, and
    the byte that ended it is looked at again.  Code points above the basic
    plane become surrogate pairs. *)

Record utf8_state := Utf8State {
  bytes_needed : nat;
  code_point : Z;
  lower_boundary : Z;
  upper_boundary : Z
}.

Definition utf8_start : utf8_state := Utf8State 0 0 0x80 0xbf.

Definition replacement : Z := 0xfffd.

(** A byte met while no sequence is open. *)
Definition utf8_lead (b : Z) : utf8_state * list Z :=
  if b <=? 0x7f then (utf8_start, [b])
  else if (0xc2 <=? b) && (b <=? 0xdf) then
    (Utf8State 1 (Z.land b 0x1f) 0x80 0xbf, [])
  else if (0xe0 <=? b) && (b <=? 0xef) then
    (Utf8State 2 (Z.land b 0xf)
       (if b =? 0xe0 then 0xa0 else 0x80)
       (if b =? 0xed then 0x9f else 0xbf), [])
  else if (0xf0 <=? b) && (b <=? 0xf4) then
    (Utf8State 3 (Z.land b 0x7)
       (if b =? 0xf0 then 0x90 else 0x80)
       (if b =? 0xf4 then 0x8f else 0xbf), [])
  else (utf8_start, [replacement]).

Definition utf8_step (st : utf8_state) (b : Z) : utf8_state * list Z :=
  match bytes_needed st with
  | O => utf8_lead b
  | S n =>
      if (lower_boundary st <=? b) && (b <=? upper_boundary st) then
        let cp := Z.lor (Z.shiftl (code_point st) 6) (Z.land b 0x3f) in
        match n with
        | O => (utf8_start, [cp])
        | S _ => (Utf8State n cp 0x80 0xbf, [])
        end
      else
        let '(st', out) := utf8_lead b in (st', replacement :: out)
  end.

Fixpoint utf8_code_points (st : utf8_state) (bs : Buffer) : list Z :=
  match bs with
  | [] => match bytes_needed st with O => [] | S _ => [replacement] end
  | b :: bs' => let '(st', out) := utf8_step st b in
                out ++ utf8_code_points st' bs'
  end.

(** One code point as UTF-16 code units. *)
Definition utf16_units (cp : Z) : jsstring :=
  if cp <? 0x10000 then [Z.to_N cp]
  else let c := cp - 0x10000 in
       [Z.to_N (0xd800 + Z.shiftr c 10); Z.to_N (0xdc00 + Z.land c 0x3ff)].

Definition Buffer_toString (b : Buffer) : jsstring :=
  concat (map utf16_units (utf8_code_points utf8_start b)).

(** ** [decodeHex]

    The argument is documented as a string; [setEnvFromNote] passes the
    [Buffer] that [execSync] returns.  The function only uses [length],
    [slice] and the conversion to a string that [parseInt] applies, which
    both kinds of value offer. *)

Class HexSource (T : Type) := {
  src_length : T -> nat;
  src_slice : T -> nat -> nat -> T;
  src_toString : T -> jsstring
}.

#[export] Instance string_HexSource : HexSource jsstring := {|
  src_length := length;
  src_slice := slice;
  src_toString := id
|}.

(** A buffer, told apart from a typed array by its constructor. *)
Inductive NodeBuffer := BufferOf (bytes : Buffer).

Definition buffer_bytes (b : NodeBuffer) : Buffer :=
  match b with BufferOf bs => bs end.

#[export] Instance buffer_HexSource : HexSource NodeBuffer := {|
  src_length b := length (buffer_bytes b);
  src_slice b from to := BufferOf (slice (buffer_bytes b) from to);
  src_toString b := Buffer_toString (buffer_bytes b)
|}.

Section DecodeHex.
Context {T : Type} `{HexSource T}.

(** The [for] loop: [fuel] bounds the number of iterations left; the loop
    leaves through its own condition when [length - i <= fuel]
    ([decodeHex_loop_fuel]). *)
Fixpoint decodeHex_loop (fuel : nat) (hexString : T) (i : nat)
    (uint8 : Uint8Array) : Uint8Array :=
  match fuel with
  | O => uint8
  | S fuel' =>
      if (i <? src_length hexString)%nat then
        let hexByte := src_slice hexString i (i + 2) in
        let byte := parseInt16 (src_toString hexByte) in
        decodeHex_loop fuel' hexString (i + 2) (uint8_store uint8 (i / 2) byte)
      else uint8
  end.

(** The typed array when the loop is over. *)
Definition decodeHex_bytes (hexString : T) : Uint8Array :=
  decodeHex_loop (src_length hexString) hexString 0
    (new_Uint8Array_half (src_length hexString)).

Definition decodeHex (hexString : T) : jsstring :=
  let buffer := decodeHex_bytes hexString in
  Buffer_toString buffer.
End DecodeHex.

(** ** [escapeDoubleQuotes]

    A global [replace] with a regular expression of two alternatives and
    the replacement pattern backslash, [$1], [$2]; one pass from left to
    right.  At a backslash that has a code unit after it the first
    alternative matches both (its class, white space or not white space, is
    any code unit) and captures the second as [$1]: the replacement is the
    pair itself.  At a double quote the second alternative matches and
    captures it as [$2]: the replacement is a backslash and the quote.
    Anything else, a last lone backslash included, is not matched and
    stays. *)
Fixpoint escapeDoubleQuotes (str : jsstring) : jsstring :=
  match str with
  | [] => []
  | c :: rest =>
      if (c =? backslash)%N then
        match rest with
        | d :: rest' => backslash :: d :: escapeDoubleQuotes rest'
        | [] => [c]
        end
      else if (c =? dquote)%N then backslash :: dquote :: escapeDoubleQuotes rest
      else c :: escapeDoubleQuotes rest
  end.

(** ** Values, exceptions and results *)

(** The JavaScript values that reach this module.  An object is the list of
    its own enumerable properties in the order [Object.keys] gives them. *)
Inductive value :=
| VUndefined
| VNull
| VBool (b : bool)
| VNumber (n : number)
| VString (s : jsstring)
| VObject (props : list (jsstring * value)).

Definition is_undefined (v : value) : bool :=
  match v with VUndefined => true | _ => false end.

(** [ToBoolean]. *)
Definition ToBoolean (v : value) : bool :=
  match v with
  | VUndefined | VNull => false
  | VBool b => b
  | VNumber (Int z) => negb (z =? 0)
  | VNumber NaN => false
  | VString s => negb (bool_decide (s = []))
  | VObject _ => true
  end.

(** What a [throw] carries. *)
Inductive exn :=
| Error (message : jsstring)
| TypeError
| ExecError (status : option Z) (signal : option jsstring)
| LibraryError (library : jsstring).

(** [e.status] of a caught exception, when it is a number. *)
Definition exn_status (e : exn) : option Z :=
  match e with
  | ExecError status _ => status
  | _ => None
  end.

Inductive result (A : Type) :=
| Ret (a : A)
| Throw (e : exn).
Arguments Ret {A} a.
Arguments Throw {A} e.

#[export] Instance result_ret : MRet result := fun A a => Ret a.
#[export] Instance result_bind : MBind result := fun A B f m =>
  match m with
  | Ret a => f a
  | Throw e => Throw e
  end.

(** Lookup of an own property of a plain object. *)
Fixpoint own_property {V} (props : list (jsstring * V)) (name : jsstring)
    : option V :=
  match props with
  | [] => None
  | (k, v) :: props' =>
      if bool_decide (k = name) then Some v else own_property props' name
  end.

(** [v.name] for a [name] that no prototype defines: a [TypeError] on
    [undefined] and [null], the own property of an object if it has it, and
    [undefined] otherwise. *)
Definition get_property (v : value) (name : jsstring) : result value :=
  match v with
  | VUndefined | VNull => Throw TypeError
  | VObject props => Ret (default VUndefined (own_property props name))
  | VBool _ | VNumber _ | VString _ => Ret VUndefined
  end.

(** [Object.keys(vars)]. *)
Definition Object_keys {V} (props : list (jsstring * V)) : list jsstring :=
  map fst props.

(** ** The libraries and the operating system

    What the module requires and does not define: [child_process.execSync]
    (the outcome of running a command under a timeout: its standard output,
    or the exception thrown for a non-zero exit status, a signal or a
    timeout), [fs.readFileSync], [plist.parse] and [dotenv.parse], whose
    result is an object of strings. *)
Record World := {
  child_process : jsstring -> value -> result NodeBuffer;
  fs_readFileSync : value -> result NodeBuffer;
  plist_parse : jsstring -> result value;
  dotenv_parse : value -> result (list (jsstring * jsstring))
}.

(** ** [noteFromPList] *)

Definition plistPreamble : jsstring :=
  js "<!DOCTYPE plist PUBLIC " ++ quoted (js "-//Apple//DTD PLIST 1.0//EN")
  ++ js " " ++ quoted (js "http://www.apple.com/DTDs/PropertyList-1.0.dtd")
  ++ js ">".

Definition NOTE : jsstring := js "NOTE".

Definition noteFromPList (w : World) (plistString : jsstring) : result value :=
  if 0 <=? indexOf plistString plistPreamble then
    p ← plist_parse w plistString;
    note ← get_property p NOTE;
    Ret note
  else Ret (VString plistString).

(** ** The state of the process

    The options object is shared between the caller, [setEnvFromNote] and
    [writeNote]: it lives in a heap and is passed by its location.  It is
    an ordinary object with the four properties the module reads as plain
    data: an assignment to one of them stores the value.  Objects on which
    the assignment of strict code throws (frozen, sealed or not extensible
    ones, or ones with accessors) are outside [Options].  Every
    call of [execSync] is recorded with its command and its [timeout]
    option, in the order of the calls. *)

Record Options := mkOptions {
  overwrite : value;
  timeout : value;
  template : value;
  templatePath : value
}.

(** The object literal [{}]. *)
Definition empty_object : Options :=
  mkOptions VUndefined VUndefined VUndefined VUndefined.

Definition set_overwrite (v : value) (o : Options) : Options :=
  mkOptions v (timeout o) (template o) (templatePath o).

Definition set_timeout (v : value) (o : Options) : Options :=
  mkOptions (overwrite o) v (template o) (templatePath o).

Abbreviation loc := nat.

Record state := mkState {
  process_env : gmap jsstring jsstring;
  heap : gmap loc Options;
  executed : list (jsstring * value)
}.

Definition M (A : Type) : Type := state -> result A * state.

#[export] Instance M_ret : MRet M := fun A a st => (Ret a, st).
#[export] Instance M_bind : MBind M := fun A B f m st =>
  match m st with
  | (Ret a, st') => f a st'
  | (Throw e, st') => (Throw e, st')
  end.

Definition throw {A} (e : exn) : M A := fun st => (Throw e, st).

Definition lift {A} (r : result A) : M A := fun st => (r, st).

(** [try { body } catch (e) { handler }]. *)
Definition try_catch {A} (body : M A) (handler : exn -> M A) : M A :=
  fun st =>
    match body st with
    | (Ret a, st') => (Ret a, st')
    | (Throw e, st') => handler e st'
    end.

(** Reading the object behind [options].  Every location the functions
    are given is allocated; the model raises a [TypeError] otherwise. *)
Definition read_options (options : loc) : M Options := fun st =>
  match heap st !! options with
  | Some o => (Ret o, st)
  | None => (Throw TypeError, st)
  end.

(** An assignment to a property of [options]. *)
Definition update_options (options : loc) (f : Options -> Options) : M unit :=
  fun st =>
    match heap st !! options with
    | Some o => (Ret tt, mkState (process_env st) (<[options := f o]> (heap st))
                           (executed st))
    | None => (Throw TypeError, st)
    end.

(** A fresh object for the default value of a parameter. *)
Definition alloc (o : Options) : M loc := fun st =>
  let l := fresh (dom (heap st)) in
  (Ret l, mkState (process_env st) (<[l := o]> (heap st)) (executed st)).

(** The names that [Object.prototype] defines.  [process.env] has
    [Object.prototype] as its prototype, so reading one of these names
    from it when no variable of the name is set gives the inherited
    property, a function or an object, not [undefined]. *)
Definition Object_prototype_names : list jsstring :=
  map js ["constructor"; "__defineGetter__"; "__defineSetter__";
          "hasOwnProperty"; "__lookupGetter__"; "__lookupSetter__";
          "isPrototypeOf"; "propertyIsEnumerable"; "toString"; "valueOf";
          "__proto__"; "toLocaleString"]%string.

Definition inherited (k : jsstring) : bool :=
  bool_decide (k ∈ Object_prototype_names).

(** What reading [process.env[k]] gives: the variable if it is set, the
    property of the prototype if the name is inherited, [undefined]
    otherwise. *)
Inductive env_property :=
| EnvVariable (v : jsstring)
| EnvInherited
| EnvUndefined.

(** [process.env[k]]. *)
Definition getenv (k : jsstring) : M env_property := fun st =>
  (Ret match process_env st !! k with
       | Some v => EnvVariable v
       | None => if inherited k then EnvInherited else EnvUndefined
       end, st).

(** [process.env[k] = v]. *)
Definition setenv (k v : jsstring) : M unit := fun st =>
  (Ret tt, mkState (<[k := v]> (process_env st)) (heap st) (executed st)).

(** [execSync(cmd, { timeout: t })]. *)
Definition execSync (w : World) (cmd : jsstring) (t : value) : M NodeBuffer :=
  fun st =>
    (child_process w cmd t,
     mkState (process_env st) (heap st) (executed st ++ [(cmd, t)])).

(** ** [writeNote] *)

Definition add_generic_password (noteName contents : jsstring) : jsstring :=
  js "/usr/bin/security add-generic-password -D " ++ quoted (js "secure note")
  ++ js " -C note -a " ++ quoted [] ++ js " -s " ++ quoted noteName
  ++ js " -w " ++ quoted contents.

(** [contents.replace] exists on strings only. *)
Definition escape_contents (contents : value) : result jsstring :=
  match contents with
  | VString s => Ret (escapeDoubleQuotes s)
  | _ => Throw TypeError
  end.

Definition writeNote (w : World) (noteName : jsstring) (options : loc) : M unit :=
  o ← read_options options;
  let write (contents : value) : M unit :=
    contents ← lift (escape_contents contents);
    let cmd := add_generic_password noteName contents in
    o ← read_options options;
    try_catch (execSync w cmd (timeout o) ;; mret tt) (fun e => throw e) in
  if ToBoolean (template o) then write (template o)
  else if ToBoolean (templatePath o) then
    file ← lift (fs_readFileSync w (templatePath o));
    write (VString (Buffer_toString (buffer_bytes file)))
  else mret tt.

(** ** [setEnvFromNote] *)

Definition find_generic_password (noteName : jsstring) : jsstring :=
  js "/usr/bin/security find-generic-password -C note -s " ++ quoted noteName
  ++ js " -w".

(** [vars[k]] converted to a string, as an assignment to [process.env] does. *)
Definition var_string (vars : list (jsstring * jsstring)) (k : jsstring)
    : jsstring :=
  default (js "undefined") (own_property vars k).

(** The body of the [for ... of] loop for one key; [skip] is the
    [continue]. *)
Definition setEnv_body (vars : list (jsstring * jsstring)) (options : loc)
    (k : jsstring) : M unit :=
  old ← getenv k;
  skip ← match old with
         | EnvVariable _ | EnvInherited =>
             o ← read_options options;
             mret (negb (ToBoolean (overwrite o)))
         | EnvUndefined => mret false
         end;
  if skip : bool then mret tt
  else setenv k (var_string vars k).

Fixpoint for_of (ks : list jsstring) (body : jsstring -> M unit) : M unit :=
  match ks with
  | [] => mret tt
  | k :: ks' => body k ;; for_of ks' body
  end.

Definition setEnvFromNote (w : World) (noteName : jsstring)
    (options_arg : option loc) : M unit :=
  options ← match options_arg with
            | Some l => mret l
            | None => alloc empty_object
            end;
  if negb (ToBoolean (VString noteName)) then
    throw (Error (js "You must supply a note name"))
  else
    o ← read_options options;
    (if is_undefined (overwrite o)
     then update_options options (set_overwrite (VBool false))
     else mret tt) ;;
    o ← read_options options;
    (if is_undefined (timeout o)
     then update_options options (set_timeout (VNumber (Int 5000)))
     else mret tt) ;;
    let cmd := find_generic_password noteName in
    o ← read_options options;
    stdout ← try_catch
      (out ← execSync w cmd (timeout o); mret (Some out))
      (fun e =>
         if bool_decide (exn_status e = Some 44) then
           o ← read_options options;
           if is_undefined (template o) && is_undefined (templatePath o)
           then throw e
           else mret None
         else throw e);
    match stdout with
    | Some stdout =>
        let plist := decodeHex stdout in
        note ← lift (noteFromPList w plist);
        vars ← lift (dotenv_parse w note);
        for_of (Object_keys vars) (setEnv_body vars options)
    | None => writeNote w noteName options
    end.

(** ** Sample worlds

    Concrete instances of the libraries and of the keychain, for the
    examples. *)

(** The exception of [execSync] when [security] exits with status 44:
    there is no note of that name. *)
Definition no_such_note : exn := ExecError (Some 44) None.

(** The exception of [execSync] when the timeout expires: the child is
    killed by a signal and has no exit status. *)
Definition timed_out : exn := ExecError None (Some (js "SIGTERM")).

(** Lines of the form KEY=VALUE, split at the first equals sign: a
    stand-in for [dotenv.parse] on notes without comments or quoting. *)
Fixpoint split_on (sep : N) (s : jsstring) : list jsstring :=
  match s with
  | [] => [[]]
  | c :: r =>
      if (c =? sep)%N then [] :: split_on sep r
      else match split_on sep r with
           | l :: ls => (c :: l) :: ls
           | [] => [[c]]
           end
  end.

Definition key_value (line : jsstring) : option (jsstring * jsstring) :=
  match split_on 61%N line with
  | k :: v :: rest =>
      if bool_decide (k = []) then None
      else Some (k, v ++ concat (map (fun x => 61%N :: x) rest))
  | _ => None
  end.

Definition plain_dotenv (src : value) : result (list (jsstring * jsstring)) :=
  match src with
  | VString s => Ret (omap key_value (split_on newline s))
  | VUndefined | VNull => Throw TypeError
  | _ => Ret []
  end.

(** The XML declaration that precedes the preamble of a property list. *)
Definition xml_declaration : jsstring :=
  js "<?xml version=" ++ quoted (js "1.0") ++ js " encoding="
  ++ quoted (js "UTF-8") ++ js "?>" ++ [newline].

Definition empty_dict_body : jsstring :=
  [newline] ++ js "<plist version=" ++ quoted (js "1.0")
  ++ js "><dict/></plist>".

Definition note_dict_body (note : jsstring) : jsstring :=
  [newline] ++ js "<plist version=" ++ quoted (js "1.0")
  ++ js "><dict><key>NOTE</key><string>" ++ note
  ++ js "</string></dict></plist>".

(** A property list with an empty dictionary, as a document. *)
Definition empty_dict_plist : jsstring :=
  xml_declaration ++ plistPreamble ++ empty_dict_body.

(** A property list whose dictionary has the one key NOTE. *)
Definition note_plist (note : jsstring) : jsstring :=
  xml_declaration ++ plistPreamble ++ note_dict_body note.

(** [plist.parse] on the two documents above; any other text is taken as
    not well formed. *)
Definition sample_plist_parse (text : jsstring) : result value :=
  if bool_decide (text = empty_dict_plist) then Ret (VObject [])
  else if bool_decide (text = note_plist (js "A=1")) then
    Ret (VObject [(NOTE, VString (js "A=1"))])
  else Throw (LibraryError (js "plist")).

Definition is_find (cmd : jsstring) : bool :=
  startsWith (js "/usr/bin/security find-generic-password") cmd.

(** A keychain without the note: reading fails with status 44, adding a
    note succeeds. *)
Definition absent_world : World := {|
  child_process cmd t :=
    if is_find cmd then Throw no_such_note else Ret (BufferOf []);
  fs_readFileSync path := Throw (LibraryError (js "fs"));
  plist_parse := sample_plist_parse;
  dotenv_parse := plain_dotenv
|}.

(** A keychain whose note reads FOO=new and BAR=new on two lines; [security]
    prints it in hexadecimal, with a line feed at the end. *)
Definition found_world : World := {|
  child_process cmd t :=
    if is_find cmd
    then Ret (BufferOf (map Z.of_N (js "464f4f3d6e65770a4241523d6e65770a") ++ [10]))
    else Ret (BufferOf []);
  fs_readFileSync path := Throw (LibraryError (js "fs"));
  plist_parse := sample_plist_parse;
  dotenv_parse := plain_dotenv
|}.

(** A keychain without the note that refuses to add one: [security] exits
    with status 1. *)
Definition refusing_world : World := {|
  child_process cmd t :=
    if is_find cmd then Throw no_such_note else Throw (ExecError (Some 1) None);
  fs_readFileSync path := Throw (LibraryError (js "fs"));
  plist_parse := sample_plist_parse;
  dotenv_parse := plain_dotenv
|}.

(** The output of the tool for a note of the given text (of codes below
    0x80): two hexadecimal digits for each character and a line feed, as a
    buffer. *)
Definition hex_codes (c : N) : list Z :=
  let digit (n : Z) := if n <? 10 then 48 + n else 87 + n in
  [digit (Z.of_N c / 16); digit (Z.of_N c mod 16)].

Definition buffer_of_hex_text (note : jsstring) : NodeBuffer :=
  BufferOf (concat (map hex_codes note) ++ [10]).

(** A keychain whose note has the preamble of a property list and nothing
    after it: the parser rejects it. *)
Definition garbled_world : World := {|
  child_process cmd t :=
    if is_find cmd
    then Ret (buffer_of_hex_text plistPreamble)
    else Ret (BufferOf []);
  fs_readFileSync path := Throw (LibraryError (js "fs"));
  plist_parse := sample_plist_parse;
  dotenv_parse := plain_dotenv
|}.

(** A keychain whose note is the one line constructor=x. *)
Definition constructor_world : World := {|
  child_process cmd t :=
    if is_find cmd
    then Ret (buffer_of_hex_text (js "constructor=x"))
    else Ret (BufferOf []);
  fs_readFileSync path := Throw (LibraryError (js "fs"));
  plist_parse := sample_plist_parse;
  dotenv_parse := plain_dotenv
|}.

(** A keychain that does not answer in time. *)
Definition slow_world : World := {|
  child_process cmd t := Throw timed_out;
  fs_readFileSync path := Throw (LibraryError (js "fs"));
  plist_parse := sample_plist_parse;
  dotenv_parse := plain_dotenv
|}.

Definition state_of (env : list (jsstring * jsstring)) (o : Options) : state :=
  mkState (list_to_map env) {[ 0%nat := o ]} [].

(** ** Notions of the specification *)

(** [s] contains [p] as a substring. *)
Definition contains (s p : jsstring) : Prop :=
  exists before after, s = before ++ p ++ after.

(** The complete pairs of characters of a string, from the left; a last
    single character belongs to no pair. *)
Fixpoint full_pairs (s : jsstring) : list jsstring :=
  match s with
  | a :: b :: r => [a; b] :: full_pairs r
  | _ => []
  end.

(** The byte [decodeHex] stores for one pair. *)
Definition pair_byte (p : jsstring) : Z := ToUint8 (parseInt16 p).

(** Hexadecimal encoding of bytes, two digits per byte, in capitals or in
    small letters.  The repository has no encoder: this is the format the
    [security] tool prints and the specification calls hexEncode. *)
Definition hexDigit (upper : bool) (d : Z) : N :=
  if d <? 10 then Z.to_N (48 + d)
  else Z.to_N ((if upper then 55 else 87) + d).

Definition byte_value (b : byte) : Z := Z.of_N (Byte.to_N b).

Definition hexEncodeByte (upper : bool) (b : byte) : jsstring :=
  [hexDigit upper (byte_value b / 16); hexDigit upper (byte_value b mod 16)].

Definition hexEncode (upper : bool) (bs : list byte) : jsstring :=
  concat (map (hexEncodeByte upper) bs).

(** A Unicode scalar value: a code point that is not a surrogate. *)
Definition is_scalar (cp : Z) : bool :=
  (0 <=? cp) && (cp <? 0xd800) || (0xe000 <=? cp) && (cp <=? 0x10ffff).

(** The UTF-8 encoding of a code point and of a text given by its code
    points: the bytes of [Buffer.from(text)]. *)
Definition utf8_encode_cp (cp : Z) : list Z :=
  if cp <? 0x80 then [cp]
  else if cp <? 0x800 then [0xc0 + cp / 64; 0x80 + cp mod 64]
  else if cp <? 0x10000 then
    [0xe0 + cp / 4096; 0x80 + (cp / 64) mod 64; 0x80 + cp mod 64]
  else [0xf0 + cp / 262144; 0x80 + (cp / 4096) mod 64;
        0x80 + (cp / 64) mod 64; 0x80 + cp mod 64].

Definition utf8_encode (cps : list Z) : list Z :=
  concat (map utf8_encode_cp cps).

(** Numbers below 256 as bytes. *)
Definition to_bytes (zs : list Z) : list byte :=
  omap (fun z => Byte.of_N (Z.to_N z)) zs.

(** Case analysis on the comparisons of a goal, closing the cases that
    arithmetic excludes. *)
Ltac decide_comparisons :=
  repeat match goal with
         | |- context [?a <=? ?b] => destruct (Z.leb_spec a b); try lia
         | |- context [?a <? ?b] => destruct (Z.ltb_spec a b); try lia
         | |- context [?a =? ?b] => destruct (Z.eqb_spec a b); try lia
         end.

(** What a POSIX shell reads between double quotes, as far as a literal
    goes: a backslash before a dollar, a backquote, a double quote or a
    backslash is removed and the character kept, a backslash before a line
    feed disappears with it, any other backslash stays.  [None] when the
    text is not a literal inside the quotes: a bare double quote closes the
    quotes, a last lone backslash escapes the closing quote, a bare dollar
    or backquote starts an expansion. *)
Definition shell_special (c : N) : bool :=
  ((c =? dollar) || (c =? backquote) || (c =? dquote) || (c =? backslash))%N.

Fixpoint shell_dquoted (s : jsstring) : option jsstring :=
  match s with
  | [] => Some []
  | c :: r =>
      if (c =? backslash)%N then
        match r with
        | d :: r' =>
            if shell_special d then cons d <$> shell_dquoted r'
            else if (d =? newline)%N then shell_dquoted r'
            else (fun t => c :: d :: t) <$> shell_dquoted r'
        | [] => None
        end
      else if ((c =? dquote) || (c =? dollar) || (c =? backquote))%N then None
      else cons c <$> shell_dquoted r
  end.

(** A double quote with a backslash before it, any other character as it
    is. *)
Definition escape_quote (c : N) : jsstring :=
  if (c =? dquote)%N then [backslash; dquote] else [c].

(** A character the escaper and the shell both take as it is, the double
    quote apart. *)
Definition no_backslash_or_expansion (c : N) : bool :=
  negb ((c =? backslash) || (c =? dollar) || (c =? backquote))%N.

(** A character that starts no expansion between double quotes. *)
Definition no_expansion (c : N) : bool :=
  negb ((c =? dollar) || (c =? backquote))%N.

(** The options object after the defaults are filled in. *)
Definition with_defaults (o : Options) : Options :=
  mkOptions
    (if is_undefined (overwrite o) then VBool false else overwrite o)
    (if is_undefined (timeout o) then VNumber (Int 5000) else timeout o)
    (template o) (templatePath o).

(** The merge rule for one key, and for the keys of a mapping from left
    to right: the key is set when [overwrite] holds or [process.env[k]] is
    [undefined], that is, when no variable of the name is set and the name
    is not inherited. *)
Definition merge_key (ow : bool) (vars : list (jsstring * jsstring))
    (env : gmap jsstring jsstring) (k : jsstring) : gmap jsstring jsstring :=
  match env !! k with
  | Some _ => if ow then <[k := var_string vars k]> env else env
  | None => if inherited k && negb ow then env
            else <[k := var_string vars k]> env
  end.

(** The variable after the merge rule has been applied to it, from what it
    was ([old]) and the value [v] of the note. *)
Definition merged (ow : bool) (k : jsstring) (old : option jsstring)
    (v : jsstring) : option jsstring :=
  match old with
  | Some x => if ow then Some v else Some x
  | None => if inherited k && negb ow then None else Some v
  end.

Definition merge_env (ow : bool) (vars : list (jsstring * jsstring))
    (env : gmap jsstring jsstring) : gmap jsstring jsstring :=
  fold_left (merge_key ow vars) (Object_keys vars) env.

(** One call of [execSync] whose output is not used. *)
Definition ran (w : World) (cmd : jsstring) (t : value) (st : state)
    : result unit * state :=
  (child_process w cmd t ;; Ret tt,
   mkState (process_env st) (heap st) (executed st ++ [(cmd, t)])).

(** The state in which the read command has been run: the defaults are in
    the options object and the command is recorded. *)
Definition after_read (noteName : jsstring) (l : loc) (o : Options)
    (st : state) : state :=
  mkState (process_env st) (<[l := with_defaults o]> (heap st))
    (executed st ++ [(find_generic_password noteName, timeout (with_defaults o))]).

(** The commands run between two states. *)
Definition new_commands (st st' : state) : list (jsstring * value) :=
  drop (length (executed st)) (executed st').

(** The three outcomes the specification lists, for a call that started in
    [st] with the options [o] (after the defaults), gave the result [r] and
    ended in [st']: the environment is the merge of a found note, the loop
    having gone through every key with its rule ([merge_env]: a key is set
    when [overwrite] holds or [process.env[k]] is [undefined]); or the
    note was not found and one write command was run, whose outcome is the
    outcome of the call; or the call threw with the environment as it was
    and no write command run. *)
Inductive listed_outcome (w : World) (noteName : jsstring) (o : Options)
    (st : state) (r : result unit) (st' : state) : Prop :=
| fully_merged (stdout : NodeBuffer) (vars : list (jsstring * jsstring))
    (Hread : child_process w (find_generic_password noteName) (timeout o)
             = Ret stdout)
    (Hparse : noteFromPList w (decodeHex stdout) ≫= dotenv_parse w = Ret vars)
    (Hres : r = Ret tt)
    (Henv : process_env st'
            = merge_env (ToBoolean (overwrite o)) vars (process_env st))
    (Hcmd : new_commands st st' = [(find_generic_password noteName, timeout o)])
| write_attempted (e : exn) (contents : jsstring)
    (Hread : child_process w (find_generic_password noteName) (timeout o)
             = Throw e)
    (H44 : exn_status e = Some 44)
    (Hres : r = (child_process w (add_generic_password noteName contents)
                   (timeout o) ;; Ret tt))
    (Henv : process_env st' = process_env st)
    (Hcmd : new_commands st st'
            = [(find_generic_password noteName, timeout o);
               (add_generic_password noteName contents, timeout o)])
| failed_unchanged (e : exn)
    (Hres : r = Throw e)
    (Henv : process_env st' = process_env st)
    (Hcmd : new_commands st st' = []
            \/ new_commands st st'
               = [(find_generic_password noteName, timeout o)]).

(** The outcome the list leaves out: the note was not found, [template] and
    [templatePath] are not both [undefined] but both falsy, and the call
    returns normally having run the read alone. *)
Definition nothing_written (w : World) (noteName : jsstring) (o : Options)
    (st : state) (r : result unit) (st' : state) : Prop :=
  exists e,
    child_process w (find_generic_password noteName) (timeout o) = Throw e
    /\ exn_status e = Some 44
    /\ is_undefined (template o) && is_undefined (templatePath o) = false
    /\ ToBoolean (template o) = false /\ ToBoolean (templatePath o) = false
    /\ r = Ret tt
    /\ process_env st' = process_env st
    /\ new_commands st st' = [(find_generic_password noteName, timeout o)].

(** The parsed property list gives no NOTE: the parser threw, or its value
    is not an object with that property. *)
Definition extraction_fails (parsed : result value) : bool :=
  match parsed with
  | Throw _ => true
  | Ret (VObject props) => bool_decide (own_property props NOTE = None)
  | Ret _ => true
  end.

(** The value of a pair of hexadecimal digits, the first the higher. *)
Definition hex_pair_value (p : jsstring) : Z :=
  match p with
  | [a; b] => 16 * default 0 (hexDigitValue a) + default 0 (hexDigitValue b)
  | _ => 0
  end.

(** The characters that are hexadecimal digits. *)
Definition hex_digits : jsstring := js "0123456789abcdefABCDEF".

(** The scan of a shell through the inside of a double-quoted word: a
    backslash takes the next character with it; a double quote met
    otherwise ends the word. *)
Fixpoint bare_quote (s : jsstring) : bool :=
  match s with
  | [] => false
  | c :: r =>
      if (c =? backslash)%N then
        match r with
        | _ :: r' => bare_quote r'
        | [] => false
        end
      else if (c =? dquote)%N then true
      else bare_quote r
  end.

(** The text ends in a backslash that is not the second of a pair: going
    from the left, a backslash takes the next character with it. *)
Fixpoint dangling_backslash (s : jsstring) : bool :=
  match s with
  | [] => false
  | c :: r =>
      if (c =? backslash)%N then
        match r with
        | _ :: r' => dangling_backslash r'
        | [] => true
        end
      else dangling_backslash r
  end.

(** A buffer of the codes of a text. *)
Definition buffer_of_text (s : jsstring) : NodeBuffer :=
  BufferOf (map Z.of_N s).

(** * Properties *)

(** ** The model at work *)

Example parseInt16_cases :
  parseInt16 (js "ff") = Int 255 /\ parseInt16 (js "FF") = Int 255
  /\ parseInt16 (js "1z") = Int 1 /\ parseInt16 (js "zz") = NaN
  /\ parseInt16 (js "-5") = Int (-5) /\ parseInt16 (js " 5") = Int 5
  /\ parseInt16 (js "0x") = NaN /\ parseInt16 [newline] = NaN.
Proof. vm_compute. done. Qed.

(** The output of the tool as [setEnvFromNote] gets it: a buffer of
    hexadecimal digits and a line feed. *)
Example decodeHex_of_tool_output :
  decodeHex (BufferOf (map Z.of_N (js "413d31") ++ [10])) = js "A=1".
Proof. vm_compute. done. Qed.

Example decodeHex_utf8 :
  decodeHex (js "c3a9e282acf09f9880") = [0xe9; 0x20ac; 0xd83d; 0xde00]%N.
Proof. vm_compute. done. Qed.

Example indexOf_cases :
  indexOf (js "hello") (js "ll") = 2 /\ indexOf (js "hello") (js "z") = -1
  /\ indexOf (js "hello") [] = 0.
Proof. vm_compute. done. Qed.

Example escapeDoubleQuotes_cases :
  escapeDoubleQuotes (js "A=" ++ quoted (js "1"))
  = js "A=" ++ [backslash; dquote] ++ js "1" ++ [backslash; dquote]
  /\ escapeDoubleQuotes (js "a" ++ [backslash] ++ js "b")
     = js "a" ++ [backslash] ++ js "b"
  /\ escapeDoubleQuotes [backslash; backslash; dquote]
     = [backslash; backslash; backslash; dquote]
  /\ escapeDoubleQuotes [backslash] = [backslash].
Proof. vm_compute. done. Qed.

(** The scenario of the specification: the note is wrapped in a property
    list, A is already set. *)
Example end_to_end :
  let w := {|
    child_process cmd t :=
      if is_find cmd
      then Ret (BufferOf (map byte_value
                            (to_bytes (map Z.of_N (hexEncode false
                               (to_bytes (map Z.of_N (note_plist (js "A=1")))))))
                          ++ [10]))
      else Ret (BufferOf []);
    fs_readFileSync path := Throw (LibraryError (js "fs"));
    plist_parse := sample_plist_parse;
    dotenv_parse := plain_dotenv
  |} in
  let st := state_of [(js "B", js "0")] empty_object in
  let out := setEnvFromNote w (js "App.env") (Some 0%nat) st in
  out.1 = Ret tt
  /\ process_env out.2 !! js "A" = Some (js "1")
  /\ process_env out.2 !! js "B" = Some (js "0").
Proof. vm_compute. done. Qed.

(** ** Strings *)

Lemma startsWith_spec (p s : jsstring) :
  startsWith p s = true <-> exists after, s = p ++ after.
Proof.
  revert s. induction p as [|a p IH]; intros s; simpl.
  - split; [intros _; by exists s | done].
  - destruct s as [|b s].
    + split; [done | intros [after Heq]; discriminate].
    + rewrite andb_true_iff, N.eqb_eq, IH. split.
      * intros [-> [after ->]]. by exists after.
      * intros [after Heq]. injection Heq as -> ->. eauto.
Qed.

Lemma indexOf_from_found (search s : jsstring) (pos : Z) :
  0 <= pos -> (0 <= indexOf_from search s pos <-> contains s search).
Proof.
  revert pos. induction s as [|c s IH]; intros pos Hpos; simpl.
  - destruct (startsWith search []) eqn:Hs.
    + apply startsWith_spec in Hs as [after Heq]. split; [intros _ | lia].
      exists [], after. done.
    + split; [lia |]. intros [before [after Heq]].
      destruct before; [|discriminate]. simpl in Heq.
      assert (startsWith search [] = true) by (apply startsWith_spec; eauto).
      congruence.
  - destruct (startsWith search (c :: s)) eqn:Hs.
    + apply startsWith_spec in Hs as [after Heq]. split; [intros _ | lia].
      exists [], after. done.
    + rewrite IH by lia. split.
      * intros [before [after ->]]. by exists (c :: before), after.
      * intros [before [after Heq]]. destruct before as [|b before].
        -- simpl in Heq.
           assert (startsWith search (c :: s) = true)
             by (apply startsWith_spec; eauto).
           congruence.
        -- injection Heq as -> ->. by exists before, after.
Qed.

(** [indexOf] is not negative exactly on the strings that contain the
    searched one. *)
Lemma indexOf_contains (s search : jsstring) :
  0 <= indexOf s search <-> contains s search.
Proof. unfold indexOf. by apply indexOf_from_found. Qed.

Lemma indexOf_not_contains (s search : jsstring) :
  indexOf s search < 0 <-> ~ contains s search.
Proof. rewrite <- indexOf_contains. lia. Qed.

(** ** [decodeHex] *)

Lemma full_pairs_short (s : jsstring) :
  (length s <= 1)%nat -> full_pairs s = [].
Proof. destruct s as [|a [|b r]]; simpl; [done | done | lia]. Qed.

Lemma full_pairs_length (s : jsstring) :
  length (full_pairs s) = (length s / 2)%nat.
Proof.
  induction s as [s IH] using (induction_ltof1 _ length). unfold ltof in IH.
  destruct s as [|a [|b r]]; [done | done |]. simpl full_pairs. simpl length.
  rewrite IH by (simpl; lia).
  change (S (S (length r))) with (1 * 2 + length r)%nat.
  rewrite Nat.div_add_l by lia. lia.
Qed.

Lemma half_le (n j : nat) : (n <= 2 * j -> n / 2 <= j)%nat.
Proof.
  intros Hle. transitivity (2 * j / 2)%nat.
  - by apply Nat.Div0.div_le_mono.
  - rewrite Nat.mul_comm, Nat.div_mul; lia.
Qed.

(** The loop fills the array pair by pair; the slots before [j] are kept. *)
Lemma decodeHex_loop_pairs (s : jsstring) (fuel j : nat) (a : Uint8Array) :
  (length s - 2 * j <= fuel)%nat ->
  length a = (length s / 2)%nat ->
  decodeHex_loop fuel s (2 * j) a
  = take j a ++ map pair_byte (full_pairs (drop (2 * j) s)).
Proof.
  revert j a. induction fuel as [|fuel IH]; intros j a Hfuel Hlen.
  - cbn [decodeHex_loop]. rewrite drop_ge by lia. cbn [full_pairs map].
    pose proof (half_le (length s) j). rewrite take_ge by lia.
    by rewrite app_nil_r.
  - cbn [decodeHex_loop src_length src_slice src_toString string_HexSource id]. destruct (2 * j <? length s)%nat eqn:Hlt.
    + apply Nat.ltb_lt in Hlt.
      replace (2 * j + 2)%nat with (2 * S j)%nat by lia.
      replace (2 * j / 2)%nat with j by (rewrite Nat.mul_comm, Nat.div_mul; lia).
      rewrite IH; [| lia | unfold uint8_store; by rewrite length_insert].
      destruct (drop (2 * j) s) as [|c r] eqn:Hdrop.
      { apply (f_equal length) in Hdrop. rewrite length_drop in Hdrop.
        simpl in Hdrop. lia. }
      assert (drop (2 * S j) s = drop 1 r) as ->.
      { replace (2 * S j)%nat with (2 * j + 2)%nat by lia.
        rewrite <- drop_drop, Hdrop. done. }
      assert (length s = (2 * j + S (length r))%nat) as Hs.
      { apply (f_equal length) in Hdrop. rewrite length_drop in Hdrop.
        simpl in Hdrop. lia. }
      destruct r as [|d r'].
      * simpl. rewrite !app_nil_r.
        assert (length a = j) as Ha.
        { rewrite Hlen, Hs. simpl length.
          replace (2 * j + 1)%nat with (1 + j * 2)%nat by lia.
          rewrite Nat.div_add by lia. done. }
        unfold uint8_store. rewrite list_insert_ge by lia.
        rewrite !take_ge by lia. done.
      * simpl drop. simpl full_pairs. simpl map.
        assert (j < length a)%nat as Ha.
        { rewrite Hlen, Hs. simpl length.
          replace (2 * j + S (S (length r')))%nat
            with (length r' + (S j) * 2)%nat by lia.
          rewrite Nat.div_add by lia. lia. }
        unfold uint8_store.
        rewrite (take_S_r _ _ (ToUint8 (parseInt16 (slice s (2 * j) (2 * S j)))))
          by (by apply list_lookup_insert_eq).
        rewrite take_insert_ge by lia. rewrite <- app_assoc. cbn [app].
        do 2 f_equal. unfold pair_byte. do 2 f_equal.
        unfold slice. replace (2 * S j - 2 * j)%nat with 2%nat by lia.
        by rewrite Hdrop.
    + apply Nat.ltb_ge in Hlt. rewrite drop_ge by lia. cbn [full_pairs map].
      pose proof (half_le (length s) j). rewrite take_ge by lia.
      by rewrite app_nil_r.
Qed.

(** The loop leaves through its own condition: fuel beyond the length of
    the string changes nothing. *)
Lemma decodeHex_loop_fuel (s : jsstring) (fuel j : nat) (a : Uint8Array) :
  (length s - 2 * j <= fuel)%nat ->
  length a = (length s / 2)%nat ->
  decodeHex_loop fuel s (2 * j) a = decodeHex_loop (length s) s (2 * j) a.
Proof.
  intros Hfuel Hlen. rewrite !decodeHex_loop_pairs by (done || lia). done.
Qed.

(** The typed array holds one byte for each complete pair of characters. *)
Lemma decodeHex_bytes_pairs (s : jsstring) :
  decodeHex_bytes s = map pair_byte (full_pairs s).
Proof.
  unfold decodeHex_bytes. simpl src_length.
  rewrite (decodeHex_loop_pairs s (length s) 0)
    by (lia || (unfold new_Uint8Array_half; by rewrite length_replicate)).
  done.
Qed.

Lemma decodeHex_pairs (s : jsstring) :
  decodeHex s = Buffer_toString (map pair_byte (full_pairs s)).
Proof. unfold decodeHex. by rewrite decodeHex_bytes_pairs. Qed.

Lemma full_pairs_app (s t : jsstring) :
  Nat.Even (length s) -> full_pairs (s ++ t) = full_pairs s ++ full_pairs t.
Proof.
  induction s as [s IH] using (induction_ltof1 _ length). unfold ltof in IH.
  destruct s as [|a [|b r]]; intros [n Hn]; simpl in Hn.
  - done.
  - lia.
  - simpl. rewrite IH; [done | simpl; lia | exists (n - 1)%nat; lia].
Qed.

Lemma isHexDigit_false (c : N) : isHexDigit c = false -> hexDigitValue c = None.
Proof.
  unfold isHexDigit. intros Hc. apply bool_decide_eq_false in Hc.
  destruct (hexDigitValue c); [|done]. destruct Hc. eauto.
Qed.

(** [parseInt] finds no digit in one or two characters that are not
    hexadecimal digits: the result is [NaN], stored as 0. *)
Lemma pair_byte_no_digit (a b : N) :
  isHexDigit a = false -> isHexDigit b = false -> pair_byte [a; b] = 0.
Proof.
  intros Ha%isHexDigit_false Hb%isHexDigit_false.
  assert (forall r, digitsPrefix (a :: r) = []) as Hda
    by (intros r; simpl; by rewrite Ha).
  assert (forall r, digitsPrefix (b :: r) = []) as Hdb
    by (intros r; simpl; by rewrite Hb).
  assert ((a =? 48)%N = false) as Ha0.
  { apply N.eqb_neq. intros ->. discriminate Ha. }
  unfold pair_byte, parseInt16. cbn [trimStart].
  destruct (isStrWhiteSpaceChar a), (isStrWhiteSpaceChar b);
    destruct (a =? 45)%N, (a =? 43)%N, (b =? 45)%N, (b =? 43)%N;
    try discriminate Ha0; cbn [andb]; rewrite ?Ha0; cbn [andb];
    rewrite ?Hda, ?Hdb; reflexivity.
Qed.

Lemma pair_byte_hexEncodeByte (upper : bool) (b : byte) :
  pair_byte (hexEncodeByte upper b) = byte_value b.
Proof. destruct upper, b; vm_compute; reflexivity. Qed.

Lemma full_pairs_hexEncode (upper : bool) (bs : list byte) :
  full_pairs (hexEncode upper bs) = map (hexEncodeByte upper) bs.
Proof.
  induction bs as [|b bs IH]; [done |].
  unfold hexEncode in *. simpl. by rewrite IH.
Qed.

(** Bytes below 0x80 are decoded to the characters of the same codes. *)
Lemma Buffer_toString_ascii (bs : Buffer) :
  Forall (fun b => 0 <= b <= 0x7f) bs -> Buffer_toString bs = map Z.to_N bs.
Proof.
  unfold Buffer_toString. induction 1 as [|b bs Hb _ IH]; [done |].
  cbn [utf8_code_points]. unfold utf8_step, utf8_start at 1.
  cbn [bytes_needed]. unfold utf8_lead.
  destruct (Z.leb_spec b 0x7f); [|lia].
  cbn [app map concat]. rewrite IH. unfold utf16_units.
  destruct (Z.ltb_spec b 0x10000); [done | lia].
Qed.

(** *** UTF-8: decoding the encoding of a text gives the text *)

Lemma lor_shiftl_6 (hi lo : Z) :
  0 <= lo < 64 -> Z.lor (Z.shiftl hi 6) lo = hi * 64 + lo.
Proof.
  intros Hlo. rewrite Z.shiftl_mul_pow2 by lia.
  assert (Z.land (hi * 2 ^ 6) lo = 0) as Hdisj.
  { apply Z.bits_inj'. intros n Hn. rewrite Z.land_spec, Z.bits_0.
    destruct (Z.lt_ge_cases n 6) as [Hlt | Hge].
    - by rewrite Z.mul_pow2_bits_low.
    - rewrite <- (Z.mod_small lo (2 ^ 6)) by lia.
      rewrite Z.mod_pow2_bits_high by lia. apply andb_false_r. }
  rewrite <- Z.lxor_lor by done. rewrite <- Z.add_nocarry_lxor by done. lia.
Qed.

Lemma land_low_bits (x : Z) (n : Z) (m : Z) :
  0 <= n -> m = Z.ones n -> Z.land x m = x mod 2 ^ n.
Proof. intros Hn ->. by apply Z.land_ones. Qed.

Lemma utf8_decode_1 (b : Z) (rest : list Z) :
  0 <= b < 0x80 ->
  utf8_code_points utf8_start (b :: rest) = b :: utf8_code_points utf8_start rest.
Proof.
  intros Hb. cbn [utf8_code_points]. unfold utf8_step, utf8_start at 1.
  cbn [bytes_needed]. unfold utf8_lead.
  destruct (Z.leb_spec b 0x7f); [done | lia].
Qed.

Lemma utf8_decode_2 (q r : Z) (rest : list Z) :
  2 <= q < 32 -> 0 <= r < 64 ->
  utf8_code_points utf8_start ((0xc0 + q) :: (0x80 + r) :: rest)
  = (q * 64 + r) :: utf8_code_points utf8_start rest.
Proof.
  intros Hq Hr. cbn [utf8_code_points]. unfold utf8_step at 1, utf8_start at 1.
  cbn [bytes_needed]. unfold utf8_lead.
  destruct (Z.leb_spec (0xc0 + q) 0x7f); [lia |].
  destruct (Z.leb_spec 0xc2 (0xc0 + q)); [|lia].
  destruct (Z.leb_spec (0xc0 + q) 0xdf); [|lia].
  cbn [andb app]. unfold utf8_step.
  cbn [bytes_needed lower_boundary upper_boundary code_point].
  destruct (Z.leb_spec 0x80 (0x80 + r)); [|lia].
  destruct (Z.leb_spec (0x80 + r) 0xbf); [|lia].
  cbn [andb app].
  rewrite (land_low_bits (0xc0 + q) 5 0x1f) by done.
  rewrite (land_low_bits (0x80 + r) 6 0x3f) by done.
  rewrite lor_shiftl_6 by (apply Z.mod_pos_bound; lia).
  f_equal. change (2 ^ 5) with 32. change (2 ^ 6) with 64.
  Z.to_euclidean_division_equations. lia.
Qed.

Lemma utf8_decode_3 (a q r : Z) (rest : list Z) :
  0 <= a < 16 -> 0 <= q < 64 -> 0 <= r < 64 ->
  (a = 0 -> 32 <= q) -> (a = 13 -> q < 32) ->
  utf8_code_points utf8_start ((0xe0 + a) :: (0x80 + q) :: (0x80 + r) :: rest)
  = ((a * 64 + q) * 64 + r) :: utf8_code_points utf8_start rest.
Proof.
  intros Ha Hq Hr Hlow Hsur. cbn [utf8_code_points].
  unfold utf8_step at 1, utf8_start at 1. cbn [bytes_needed]. unfold utf8_lead.
  rewrite (land_low_bits (0xe0 + a) 4 0xf) by done.
  assert ((0xe0 + a) mod 2 ^ 4 = a) as ->
    by (change (2 ^ 4) with 16; Z.to_euclidean_division_equations; lia).
  destruct (Z.leb_spec (0xe0 + a) 0x7f); [lia |].
  destruct (Z.leb_spec 0xc2 (0xe0 + a)); [|lia].
  destruct (Z.leb_spec (0xe0 + a) 0xdf); [lia |].
  destruct (Z.leb_spec 0xe0 (0xe0 + a)); [|lia].
  destruct (Z.leb_spec (0xe0 + a) 0xef); [|lia].
  cbn [andb app]. unfold utf8_step at 1.
  cbn [bytes_needed lower_boundary upper_boundary code_point].
  rewrite (land_low_bits (0x80 + q) 6 0x3f) by done.
  assert ((0x80 + q) mod 2 ^ 6 = q) as ->
    by (change (2 ^ 6) with 64; Z.to_euclidean_division_equations; lia).
  rewrite lor_shiftl_6 by lia.
  assert (((if 0xe0 + a =? 0xe0 then 0xa0 else 0x80) <=? 0x80 + q)
          && (0x80 + q <=? (if 0xe0 + a =? 0xed then 0x9f else 0xbf)) = true) as ->.
  { apply andb_true_iff. split; apply Z.leb_le; decide_comparisons. }
  cbn [app]. unfold utf8_step.
  cbn [bytes_needed lower_boundary upper_boundary code_point].
  rewrite (land_low_bits (0x80 + r) 6 0x3f) by done.
  assert ((0x80 + r) mod 2 ^ 6 = r) as ->
    by (change (2 ^ 6) with 64; Z.to_euclidean_division_equations; lia).
  rewrite lor_shiftl_6 by lia.
  destruct (Z.leb_spec 0x80 (0x80 + r)); [|lia].
  destruct (Z.leb_spec (0x80 + r) 0xbf); [|lia].
  done.
Qed.

Lemma utf8_decode_4 (a p q r : Z) (rest : list Z) :
  0 <= a <= 4 -> 0 <= p < 64 -> 0 <= q < 64 -> 0 <= r < 64 ->
  (a = 0 -> 16 <= p) -> (a = 4 -> p < 16) ->
  utf8_code_points utf8_start
    ((0xf0 + a) :: (0x80 + p) :: (0x80 + q) :: (0x80 + r) :: rest)
  = (((a * 64 + p) * 64 + q) * 64 + r) :: utf8_code_points utf8_start rest.
Proof.
  intros Ha Hp Hq Hr Hlow Hhigh. cbn [utf8_code_points].
  unfold utf8_step at 1, utf8_start at 1. cbn [bytes_needed]. unfold utf8_lead.
  rewrite (land_low_bits (0xf0 + a) 3 0x7) by done.
  assert ((0xf0 + a) mod 2 ^ 3 = a) as ->
    by (change (2 ^ 3) with 8; Z.to_euclidean_division_equations; lia).
  destruct (Z.leb_spec (0xf0 + a) 0x7f); [lia |].
  destruct (Z.leb_spec 0xc2 (0xf0 + a)); [|lia].
  destruct (Z.leb_spec (0xf0 + a) 0xdf); [lia |].
  destruct (Z.leb_spec 0xe0 (0xf0 + a)); [|lia].
  destruct (Z.leb_spec (0xf0 + a) 0xef); [lia |].
  destruct (Z.leb_spec 0xf0 (0xf0 + a)); [|lia].
  destruct (Z.leb_spec (0xf0 + a) 0xf4); [|lia].
  cbn [andb app]. unfold utf8_step at 1.
  cbn [bytes_needed lower_boundary upper_boundary code_point].
  rewrite (land_low_bits (0x80 + p) 6 0x3f) by done.
  assert ((0x80 + p) mod 2 ^ 6 = p) as ->
    by (change (2 ^ 6) with 64; Z.to_euclidean_division_equations; lia).
  rewrite lor_shiftl_6 by lia.
  assert (((if 0xf0 + a =? 0xf0 then 0x90 else 0x80) <=? 0x80 + p)
          && (0x80 + p <=? (if 0xf0 + a =? 0xf4 then 0x8f else 0xbf)) = true) as ->.
  { apply andb_true_iff. split; apply Z.leb_le; decide_comparisons. }
  cbn [app]. unfold utf8_step at 1.
  cbn [bytes_needed lower_boundary upper_boundary code_point].
  rewrite (land_low_bits (0x80 + q) 6 0x3f) by done.
  assert ((0x80 + q) mod 2 ^ 6 = q) as ->
    by (change (2 ^ 6) with 64; Z.to_euclidean_division_equations; lia).
  rewrite lor_shiftl_6 by lia.
  destruct (Z.leb_spec 0x80 (0x80 + q)); [|lia].
  destruct (Z.leb_spec (0x80 + q) 0xbf); [|lia].
  cbn [andb app]. unfold utf8_step.
  cbn [bytes_needed lower_boundary upper_boundary code_point].
  rewrite (land_low_bits (0x80 + r) 6 0x3f) by done.
  assert ((0x80 + r) mod 2 ^ 6 = r) as ->
    by (change (2 ^ 6) with 64; Z.to_euclidean_division_equations; lia).
  rewrite lor_shiftl_6 by lia.
  destruct (Z.leb_spec 0x80 (0x80 + r)); [|lia].
  destruct (Z.leb_spec (0x80 + r) 0xbf); [|lia].
  done.
Qed.

Lemma utf8_decode_encode_cp (cp : Z) (rest : list Z) :
  is_scalar cp = true ->
  utf8_code_points utf8_start (utf8_encode_cp cp ++ rest)
  = cp :: utf8_code_points utf8_start rest.
Proof.
  unfold is_scalar. intros Hcp.
  assert (0 <= cp < 0xd800 \/ 0xe000 <= cp <= 0x10ffff) as Hrange by lia.
  clear Hcp. unfold utf8_encode_cp.
  destruct (Z.ltb_spec cp 0x80); [apply utf8_decode_1; lia |].
  destruct (Z.ltb_spec cp 0x800).
  { cbn [app]. rewrite utf8_decode_2.
    - f_equal. Z.to_euclidean_division_equations. lia.
    - Z.to_euclidean_division_equations. lia.
    - Z.to_euclidean_division_equations. lia. }
  destruct (Z.ltb_spec cp 0x10000).
  { cbn [app]. rewrite utf8_decode_3.
    - f_equal. Z.to_euclidean_division_equations. lia.
    - Z.to_euclidean_division_equations. lia.
    - Z.to_euclidean_division_equations. lia.
    - Z.to_euclidean_division_equations. lia.
    - Z.to_euclidean_division_equations. lia.
    - Z.to_euclidean_division_equations. lia. }
  cbn [app]. rewrite utf8_decode_4.
  - f_equal. Z.to_euclidean_division_equations. lia.
  - Z.to_euclidean_division_equations. lia.
  - Z.to_euclidean_division_equations. lia.
  - Z.to_euclidean_division_equations. lia.
  - Z.to_euclidean_division_equations. lia.
  - Z.to_euclidean_division_equations. lia.
  - Z.to_euclidean_division_equations. lia.
Qed.

Lemma utf8_decode_encode (cps : list Z) :
  forallb is_scalar cps = true ->
  utf8_code_points utf8_start (utf8_encode cps) = cps.
Proof.
  unfold utf8_encode. induction cps as [|cp cps IH]; [done |].
  cbn [forallb map concat]. intros [Hcp Hcps]%andb_true_iff.
  rewrite utf8_decode_encode_cp by done. by rewrite IH.
Qed.

Lemma utf8_encode_cp_bytes (cp : Z) :
  is_scalar cp = true -> Forall (fun b => 0 <= b < 256) (utf8_encode_cp cp).
Proof.
  unfold is_scalar. intros Hcp.
  assert (0 <= cp <= 0x10ffff) as Hrange by lia. clear Hcp.
  unfold utf8_encode_cp.
  destruct (Z.ltb_spec cp 0x80); [|destruct (Z.ltb_spec cp 0x800);
    [|destruct (Z.ltb_spec cp 0x10000)]];
    repeat constructor; Z.to_euclidean_division_equations; lia.
Qed.

Lemma utf8_encode_bytes (cps : list Z) :
  forallb is_scalar cps = true -> Forall (fun b => 0 <= b < 256) (utf8_encode cps).
Proof.
  unfold utf8_encode. induction cps as [|cp cps IH]; [constructor |].
  cbn [forallb map concat]. intros [Hcp Hcps]%andb_true_iff.
  apply Forall_app. split; [by apply utf8_encode_cp_bytes | by apply IH].
Qed.

Lemma to_bytes_values (zs : list Z) :
  Forall (fun b => 0 <= b < 256) zs -> map byte_value (to_bytes zs) = zs.
Proof.
  unfold to_bytes. induction 1 as [|z zs Hz _ IH]; [done |].
  cbn [omap list_omap]. destruct (Byte.of_N (Z.to_N z)) as [b|] eqn:Hb.
  - cbn [map]. rewrite IH. f_equal. apply Byte.to_of_N in Hb.
    unfold byte_value. rewrite Hb. lia.
  - apply Byte.of_N_None_iff in Hb. lia.
Qed.

(** C5 (counterexample).  The claim wants an error for an input with a
    character that is no hexadecimal digit, or of odd length.  [decodeHex]
    has no [throw] and calls nothing that throws on such input: on the two
    letters zz it returns the text of the one character U+0000, and on the
    three characters 41f it returns the letter A, the text of 41 alone. *)
Lemma decodeHex_accepts_malformed :
  isHexDigit 122 = false /\ decodeHex (js "zz") = [0%N]
  /\ Nat.odd (length (js "41f")) = true /\ decodeHex (js "41f") = js "A".
Proof. vm_compute. done. Qed.

(** C5 (amended).  [decodeHex] does not validate its input and raises no
    error: for every string it returns the UTF-8 text of one byte per
    complete pair of characters, the byte being [parseInt(pair, 16)] as
    stored in a [Uint8Array].  The last character of an input of odd
    length is dropped without notice ([s] of even length, [c] any
    character), and a pair of two characters that are not hexadecimal
    digits yields the byte 0. *)
Theorem decodeHex_does_not_validate (s : jsstring) (a b c : N)
    (Heven : Nat.even (length s) = true)
    (Ha : isHexDigit a = false) (Hb : isHexDigit b = false) :
  (forall t : jsstring,
     decodeHex t = Buffer_toString (map pair_byte (full_pairs t))
     /\ length (decodeHex_bytes t) = (length t / 2)%nat)
  /\ decodeHex (s ++ [c]) = decodeHex s
  /\ decodeHex_bytes (s ++ [a; b]) = decodeHex_bytes s ++ [0].
Proof.
  apply Nat.even_spec in Heven. repeat split.
  - apply decodeHex_pairs.
  - by rewrite decodeHex_bytes_pairs, length_map, full_pairs_length.
  - rewrite !decodeHex_pairs, full_pairs_app by done. simpl.
    by rewrite app_nil_r.
  - rewrite !decodeHex_bytes_pairs, full_pairs_app by done. simpl.
    rewrite map_app. simpl. by rewrite pair_byte_no_digit.
Qed.

Lemma decodeHex_does_not_validate_witness :
  decodeHex (js "41" ++ [102%N]) = decodeHex (js "41")
  /\ decodeHex_bytes (js "41" ++ [122%N; 122%N]) = decodeHex_bytes (js "41") ++ [0].
Proof.
  apply (decodeHex_does_not_validate (js "41") 122 122 102); reflexivity.
Defined.




(** ** [escapeDoubleQuotes] *)

Lemma escapeDoubleQuotes_idempotent (s : jsstring) :
  escapeDoubleQuotes (escapeDoubleQuotes s) = escapeDoubleQuotes s.
Proof.
  induction s as [s IH] using (induction_ltof1 _ length). unfold ltof in IH.
  destruct s as [|c rest]; [done |]. cbn [escapeDoubleQuotes].
  destruct (c =? backslash)%N eqn:Hbs.
  - apply N.eqb_eq in Hbs as ->. destruct rest as [|d rest']; [done |].
    cbn [escapeDoubleQuotes]. rewrite N.eqb_refl, IH by (simpl; lia). done.
  - destruct (c =? dquote)%N eqn:Hdq.
    + cbn [escapeDoubleQuotes]. rewrite N.eqb_refl, IH by (simpl; lia). done.
    + cbn [escapeDoubleQuotes]. rewrite Hbs, Hdq, IH by (simpl; lia). done.
Qed.

Lemma escapeDoubleQuotes_plain (t : jsstring) :
  forallb no_backslash_or_expansion t = true ->
  escapeDoubleQuotes t = concat (map escape_quote t)
  /\ shell_dquoted (concat (map escape_quote t)) = Some t.
Proof.
  induction t as [|c t IH]; [done |]. cbn [forallb].
  intros [Hc Ht]%andb_true_iff. destruct (IH Ht) as [IH1 IH2].
  unfold no_backslash_or_expansion in Hc.
  apply negb_true_iff, orb_false_iff in Hc as [Hc Hbq].
  apply orb_false_iff in Hc as [Hbs Hdol].
  cbn [escapeDoubleQuotes map concat]. rewrite Hbs, IH1.
  assert (escape_quote c = if (c =? dquote)%N then [backslash; dquote] else [c])
    as -> by done.
  destruct (c =? dquote)%N eqn:Hdq.
  - split; [done |]. apply N.eqb_eq in Hdq as ->. simpl. by rewrite IH2.
  - split; [done |]. cbn [app shell_dquoted]. rewrite Hbs, Hdq, Hdol, Hbq.
    simpl. by rewrite IH2.
Qed.

(** C2 (counterexample).  The input is a backslash followed by a double
    quote.  The claim wants both escaped (three backslashes and the quote);
    the escaper returns the input as it is, and a shell reads that, between
    double quotes, as the double quote alone.  (Nor is every input without
    backslashes read back as a literal: a dollar stays bare and starts an
    expansion.) *)
Lemma escapeDoubleQuotes_keeps_escaped_quote :
  escapeDoubleQuotes [backslash; dquote] = [backslash; dquote]
  /\ escapeDoubleQuotes [backslash; dquote]
     <> [backslash; backslash; backslash; dquote]
  /\ shell_dquoted (escapeDoubleQuotes [backslash; dquote]) = Some [dquote]
  /\ shell_dquoted (escapeDoubleQuotes (js "$HOME")) = None.
Proof. vm_compute. done. Qed.

(** The equations of the pass determine the escaper: a function that
    copies a backslash with the character after it, puts a backslash
    before any other double quote and copies any other character, a last
    lone backslash included, is [escapeDoubleQuotes] on every input. *)
Lemma escapeDoubleQuotes_unique (f : jsstring -> jsstring) :
  f [] = [] -> f [backslash] = [backslash] ->
  (forall c s, f (backslash :: c :: s) = backslash :: c :: f s) ->
  (forall s, f (dquote :: s) = backslash :: dquote :: f s) ->
  (forall d s, (d =? backslash)%N || (d =? dquote)%N = false ->
               f (d :: s) = d :: f s) ->
  forall s, f s = escapeDoubleQuotes s.
Proof.
  intros Hnil Hlone Hpair Hquote Hother s.
  induction s as [s IH] using (induction_ltof1 _ length). unfold ltof in IH.
  destruct s as [|c rest]; [done |]. cbn [escapeDoubleQuotes].
  destruct (c =? backslash)%N eqn:Hbs.
  - apply N.eqb_eq in Hbs as ->. destruct rest as [|d rest']; [done |].
    rewrite Hpair, IH by (simpl; lia). done.
  - destruct (c =? dquote)%N eqn:Hdq.
    + apply N.eqb_eq in Hdq as ->. rewrite Hquote, IH by (simpl; lia). done.
    + rewrite Hother, IH by (by rewrite ?Hbs, ?Hdq || (simpl; lia)). done.
Qed.

(** C2 (amended).  The escaper never escapes a backslash.  In one pass
    from left to right, on every input, a backslash and the character [c]
    after it are copied as they are, whatever the character; every other
    double quote gets a backslash before it; every other character [d], a
    dollar or a backquote as well, is copied, and so is a last lone
    backslash.  So the output of the escaper is left unchanged by the
    escaper.  For every input [t] without backslash (and without dollar and
    backquote, which the escaper does not treat) every double quote is
    escaped, and a shell reads the output between double quotes as the
    literal [t]. *)
Theorem escapeDoubleQuotes_escapes_bare_quotes (s t : jsstring) (c d : N)
    (Hd : (d =? backslash)%N || (d =? dquote)%N = false)
    (Ht : forallb no_backslash_or_expansion t = true) :
  escapeDoubleQuotes (backslash :: c :: s) = backslash :: c :: escapeDoubleQuotes s
  /\ escapeDoubleQuotes (dquote :: s) = backslash :: dquote :: escapeDoubleQuotes s
  /\ escapeDoubleQuotes (d :: s) = d :: escapeDoubleQuotes s
  /\ escapeDoubleQuotes [backslash] = [backslash]
  /\ escapeDoubleQuotes [] = []
  /\ escapeDoubleQuotes (escapeDoubleQuotes s) = escapeDoubleQuotes s
  /\ escapeDoubleQuotes t = concat (map escape_quote t)
  /\ shell_dquoted (escapeDoubleQuotes t) = Some t.
Proof.
  split; [done |]. split; [done |]. split.
  { apply orb_false_iff in Hd as [Hbs Hdq]. cbn [escapeDoubleQuotes].
    by rewrite Hbs, Hdq. }
  split; [done |]. split; [done |].
  split; [apply escapeDoubleQuotes_idempotent |].
  destruct (escapeDoubleQuotes_plain t Ht) as [H1 H2].
  split; [done |]. by rewrite H1.
Qed.

Lemma escapeDoubleQuotes_escapes_bare_quotes_witness :
  escapeDoubleQuotes (backslash :: dquote :: js "x")
  = backslash :: dquote :: escapeDoubleQuotes (js "x")
  /\ escapeDoubleQuotes (dquote :: js "x")
     = backslash :: dquote :: escapeDoubleQuotes (js "x")
  /\ escapeDoubleQuotes (dollar :: js "x") = dollar :: escapeDoubleQuotes (js "x")
  /\ escapeDoubleQuotes [backslash] = [backslash]
  /\ escapeDoubleQuotes [] = []
  /\ escapeDoubleQuotes (escapeDoubleQuotes (js "x")) = escapeDoubleQuotes (js "x")
  /\ escapeDoubleQuotes (js "A=" ++ quoted (js "1"))
     = concat (map escape_quote (js "A=" ++ quoted (js "1")))
  /\ shell_dquoted (escapeDoubleQuotes (js "A=" ++ quoted (js "1")))
     = Some (js "A=" ++ quoted (js "1")).
Proof.
  apply (escapeDoubleQuotes_escapes_bare_quotes (js "x")
           (js "A=" ++ quoted (js "1")) dquote dollar); reflexivity.
Defined.

(** ** The monad *)

Lemma bind_ret {A B} (a : A) (f : A -> M B) (st : state) :
  (mret a ≫= f) st = f a st.
Proof. done. Qed.

Lemma bind_throw {A B} (e : exn) (f : A -> M B) (st : state) :
  (throw e ≫= f) st = (Throw e, st).
Proof. done. Qed.

Lemma bind_lift {A B} (r : result A) (f : A -> M B) (st : state) :
  (lift r ≫= f) st
  = match r with Ret a => f a st | Throw e => (Throw e, st) end.
Proof. unfold mbind, M_bind, lift. by destruct r. Qed.

Lemma bind_read_options {B} (l : loc) (o : Options) (f : Options -> M B)
    (st : state) :
  heap st !! l = Some o -> (read_options l ≫= f) st = f o st.
Proof. intros Hl. unfold mbind, M_bind, read_options. by rewrite Hl. Qed.

Lemma bind_update_options {B} (l : loc) (o : Options) (g : Options -> Options)
    (f : unit -> M B) (st : state) :
  heap st !! l = Some o ->
  (update_options l g ≫= f) st
  = f tt (mkState (process_env st) (<[l := g o]> (heap st)) (executed st)).
Proof. intros Hl. unfold mbind, M_bind, update_options. by rewrite Hl. Qed.

Lemma bind_execSync {B} (w : World) (cmd : jsstring) (t : value)
    (f : NodeBuffer -> M B) (st : state) :
  (execSync w cmd t ≫= f) st
  = let st' := mkState (process_env st) (heap st) (executed st ++ [(cmd, t)]) in
    match child_process w cmd t with
    | Ret out => f out st'
    | Throw e => (Throw e, st')
    end.
Proof. unfold mbind, M_bind, execSync. by destruct (child_process w cmd t). Qed.

(** ** The merge loop *)

Lemma setEnv_body_merge (vars : list (jsstring * jsstring)) (l : loc)
    (o : Options) (k : jsstring) (st : state) :
  heap st !! l = Some o ->
  setEnv_body vars l k st
  = (Ret tt, mkState (merge_key (ToBoolean (overwrite o)) vars (process_env st) k)
               (heap st) (executed st)).
Proof.
  intros Hl. unfold setEnv_body, merge_key, getenv, setenv.
  unfold mbind at 1, M_bind at 1.
  destruct (process_env st !! k) as [old|]; [|destruct (inherited k)].
  - unfold mbind at 1, M_bind at 1. rewrite (bind_read_options l o) by done.
    unfold mret, M_ret. destruct (ToBoolean (overwrite o)); simpl; [done |].
    by destruct st.
  - unfold mbind at 1, M_bind at 1. rewrite (bind_read_options l o) by done.
    unfold mret, M_ret. destruct (ToBoolean (overwrite o)); simpl; [done |].
    by destruct st.
  - done.
Qed.

Lemma for_of_merge (vars : list (jsstring * jsstring)) (l : loc) (o : Options)
    (ks : list jsstring) (st : state) :
  heap st !! l = Some o ->
  for_of ks (setEnv_body vars l) st
  = (Ret tt, mkState (fold_left (merge_key (ToBoolean (overwrite o)) vars) ks
                        (process_env st))
               (heap st) (executed st)).
Proof.
  revert st. induction ks as [|k ks IH]; intros st Hl.
  - by destruct st.
  - cbn [for_of fold_left]. unfold mbind, M_bind.
    rewrite (setEnv_body_merge vars l o) by done. by rewrite IH.
Qed.

(** The variable [k] after the merge of the keys [ks]. *)
Lemma fold_merge_key_lookup (ow : bool) (vars : list (jsstring * jsstring))
    (ks : list jsstring) (env : gmap jsstring jsstring) (k : jsstring) :
  fold_left (merge_key ow vars) ks env !! k
  = if bool_decide (k ∈ ks) then merged ow k (env !! k) (var_string vars k)
    else env !! k.
Proof.
  revert env. induction ks as [|k0 ks IH]; intros env; [done |].
  cbn [fold_left]. rewrite IH.
  destruct (decide (k = k0)) as [->|Hne].
  - rewrite (bool_decide_eq_true_2 (k0 ∈ k0 :: ks)) by (by left).
    unfold merge_key, merged. destruct (env !! k0) as [old|] eqn:Hk0.
    + destruct ow.
      * rewrite lookup_insert_eq. by destruct (bool_decide _).
      * rewrite Hk0. by destruct (bool_decide _).
    + destruct (inherited k0 && negb ow) eqn:Hskip.
      * rewrite Hk0. by destruct (bool_decide _).
      * rewrite lookup_insert_eq. by destruct (bool_decide _), ow.
  - assert (merge_key ow vars env k0 !! k = env !! k) as ->.
    { unfold merge_key.
      destruct (env !! k0), ow, (inherited k0); simpl;
        by rewrite ?lookup_insert_ne. }
    destruct (decide (k ∈ ks)) as [Hin|Hnin].
    + rewrite (bool_decide_eq_true_2 (k ∈ ks)) by done.
      by rewrite (bool_decide_eq_true_2 (k ∈ k0 :: ks)) by (by right).
    + rewrite (bool_decide_eq_false_2 (k ∈ ks)) by done.
      rewrite (bool_decide_eq_false_2 (k ∈ k0 :: ks)); [done |].
      by intros [Heq | Hin]%elem_of_cons.
Qed.

Lemma own_property_keys {V} (props : list (jsstring * V)) (k : jsstring) :
  k ∈ Object_keys props <-> is_Some (own_property props k).
Proof.
  unfold Object_keys. induction props as [|[k0 v] props IH]; simpl.
  - split; [by intros ?%elem_of_nil | by intros [? ?]].
  - rewrite elem_of_cons. case_bool_decide as Hk.
    + split; [eauto | by left].
    + rewrite IH. split; [by intros [->|?] | by right].
Qed.

(** The merged environment, variable by variable. *)
Lemma merge_env_lookup (ow : bool) (vars : list (jsstring * jsstring))
    (env : gmap jsstring jsstring) (k : jsstring) :
  merge_env ow vars env !! k
  = match own_property vars k with
    | Some v => merged ow k (env !! k) v
    | None => env !! k
    end.
Proof.
  unfold merge_env. rewrite fold_merge_key_lookup.
  pose proof (own_property_keys vars k) as Hkeys. unfold var_string.
  destruct (own_property vars k) as [v|].
  - rewrite bool_decide_eq_true_2; [done | apply Hkeys; eauto].
  - rewrite bool_decide_eq_false_2; [done |].
    intros Hin. apply Hkeys in Hin as [v Hv]. discriminate Hv.
Qed.

(** ** [writeNote] and [setEnvFromNote], step by step *)

Lemma writeNote_contents (w : World) (noteName : jsstring) (l : loc)
    (o : Options) (contents : value) (st : state) :
  heap st !! l = Some o ->
  (contents ← lift (escape_contents contents);
   o ← read_options l;
   try_catch (execSync w (add_generic_password noteName contents) (timeout o) ;;
              mret tt) (fun e => throw e)) st
  = match escape_contents contents with
    | Ret escaped => ran w (add_generic_password noteName escaped) (timeout o) st
    | Throw e => (Throw e, st)
    end.
Proof.
  intros Hl. rewrite bind_lift. destruct (escape_contents contents) as [c|e]; [|done].
  rewrite (bind_read_options l o) by done.
  unfold try_catch, ran. rewrite bind_execSync. cbn zeta.
  unfold mbind at 1, result_bind.
  by destruct (child_process w (add_generic_password noteName c) (timeout o)).
Qed.

Lemma writeNote_run (w : World) (noteName : jsstring) (l : loc) (o : Options)
    (st : state) :
  heap st !! l = Some o ->
  writeNote w noteName l st
  = if ToBoolean (template o) then
      match escape_contents (template o) with
      | Ret escaped => ran w (add_generic_password noteName escaped) (timeout o) st
      | Throw e => (Throw e, st)
      end
    else if ToBoolean (templatePath o) then
      match fs_readFileSync w (templatePath o) with
      | Ret file =>
          ran w (add_generic_password noteName
                   (escapeDoubleQuotes (Buffer_toString (buffer_bytes file))))
            (timeout o) st
      | Throw e => (Throw e, st)
      end
    else (Ret tt, st).
Proof.
  intros Hl. unfold writeNote. rewrite (bind_read_options l o) by done.
  destruct (ToBoolean (template o)).
  - by apply writeNote_contents.
  - destruct (ToBoolean (templatePath o)); [|done].
    rewrite bind_lift. destruct (fs_readFileSync w (templatePath o)) as [file|e]; [|done].
    by rewrite (writeNote_contents w noteName l o).
Qed.

Lemma with_defaults_steps (o : Options) :
  let o1 := if is_undefined (overwrite o) then set_overwrite (VBool false) o else o in
  (if is_undefined (timeout o1) then set_timeout (VNumber (Int 5000)) o1 else o1)
  = with_defaults o.
Proof. destruct o as [[] [] ? ?]; reflexivity. Qed.

Lemma setEnvFromNote_run (w : World) (noteName : jsstring) (l : loc)
    (o : Options) (st : state) :
  noteName <> [] ->
  heap st !! l = Some o ->
  setEnvFromNote w noteName (Some l) st
  = let o' := with_defaults o in
    let st1 := after_read noteName l o st in
    match child_process w (find_generic_password noteName) (timeout o') with
    | Ret stdout =>
        match noteFromPList w (decodeHex stdout) ≫= dotenv_parse w with
        | Ret vars =>
            (Ret tt, mkState (merge_env (ToBoolean (overwrite o')) vars
                                (process_env st))
                       (heap st1) (executed st1))
        | Throw e => (Throw e, st1)
        end
    | Throw e =>
        if bool_decide (exn_status e = Some 44) then
          if is_undefined (template o) && is_undefined (templatePath o)
          then (Throw e, st1)
          else writeNote w noteName l st1
        else (Throw e, st1)
    end.
Proof.
  intros Hname Hl. unfold setEnvFromNote. rewrite bind_ret.
  assert (ToBoolean (VString noteName) = true) as ->.
  { simpl. by rewrite bool_decide_eq_false_2. }
  cbn [negb]. rewrite (bind_read_options l o) by done.
  set (o1 := if is_undefined (overwrite o) then set_overwrite (VBool false) o else o).
  set (st_a := mkState (process_env st) (<[l := o1]> (heap st)) (executed st)).
  assert (heap st_a !! l = Some o1) as Hla by apply lookup_insert_eq.
  match goal with
  | |- (?m ≫= ?f) st = _ => assert ((m ≫= f) st = f tt st_a) as ->
  end.
  { subst st_a o1. destruct (is_undefined (overwrite o)).
    - by rewrite (bind_update_options l o).
    - rewrite bind_ret, insert_id by done. by destruct st. }
  rewrite (bind_read_options l o1) by done.
  set (st_b := mkState (process_env st) (<[l := with_defaults o]> (heap st))
                 (executed st)).
  assert (heap st_b !! l = Some (with_defaults o)) as Hlb by apply lookup_insert_eq.
  match goal with
  | |- (?m ≫= ?f) st_a = _ => assert ((m ≫= f) st_a = f tt st_b) as ->
  end.
  { pose proof (with_defaults_steps o) as Hd. cbn zeta in Hd. fold o1 in Hd.
    subst st_b. rewrite <- Hd. destruct (is_undefined (timeout o1)).
    - rewrite (bind_update_options l o1) by done. subst st_a. simpl.
      by rewrite insert_insert_eq.
    - by rewrite bind_ret. }
  rewrite (bind_read_options l (with_defaults o)) by done.
  cbn zeta. unfold mbind at 1, M_bind at 1, try_catch.
  rewrite bind_execSync. cbn zeta. subst st_b. cbn [process_env heap executed].
  fold (after_read noteName l o st).
  assert (heap (after_read noteName l o st) !! l = Some (with_defaults o)) as Hl1
    by apply lookup_insert_eq.
  destruct (child_process w (find_generic_password noteName)
              (timeout (with_defaults o))) as [stdout|e].
  - unfold mret at 1, M_ret at 1. cbn beta iota. rewrite bind_lift.
    destruct (noteFromPList w (decodeHex stdout)) as [note|e]; [|done].
    rewrite bind_lift. unfold mbind, result_bind.
    destruct (dotenv_parse w note) as [vars|e]; [|done].
    by rewrite (for_of_merge vars l (with_defaults o)).
  - destruct (bool_decide (exn_status e = Some 44)); [|done].
    rewrite (bind_read_options l (with_defaults o)) by done.
    change (template (with_defaults o)) with (template o).
    change (templatePath (with_defaults o)) with (templatePath o).
    by destruct (is_undefined (template o) && is_undefined (templatePath o)).
Qed.

Lemma setEnvFromNote_no_name (w : World) (l : loc) (st : state) :
  setEnvFromNote w [] (Some l) st
  = (Throw (Error (js "You must supply a note name")), st).
Proof. done. Qed.

(** Without an options argument the call runs on a fresh empty object. *)
Lemma setEnvFromNote_default (w : World) (noteName : jsstring) (st : state) :
  setEnvFromNote w noteName None st
  = let l := fresh (dom (heap st)) in
    setEnvFromNote w noteName (Some l)
      (mkState (process_env st) (<[l := empty_object]> (heap st)) (executed st)).
Proof. done. Qed.

Lemma ToBoolean_overwrite_default (o : Options) :
  ToBoolean (overwrite (with_defaults o)) = ToBoolean (overwrite o).
Proof. destruct o as [[] ? ? ?]; reflexivity. Qed.

Lemma new_commands_app (st st' : state) (cs : list (jsstring * value)) :
  executed st' = executed st ++ cs -> new_commands st st' = cs.
Proof. unfold new_commands. intros ->. by rewrite drop_app_length. Qed.

Lemma new_commands_after_read (noteName : jsstring) (l : loc) (o : Options)
    (st : state) :
  new_commands st (after_read noteName l o st)
  = [(find_generic_password noteName, timeout (with_defaults o))].
Proof. by apply new_commands_app. Qed.

(** What [writeNote] leaves behind: the environment and the heap as they
    were, and at most one command, run under [options.timeout] as it is. *)
Lemma writeNote_frame (w : World) (noteName : jsstring) (l : loc) (o : Options)
    (st : state) :
  heap st !! l = Some o ->
  let out := writeNote w noteName l st in
  process_env out.2 = process_env st /\ heap out.2 = heap st
  /\ (executed out.2 = executed st
      \/ exists contents,
           executed out.2
           = executed st ++ [(add_generic_password noteName contents, timeout o)]).
Proof.
  intros Hl. cbn zeta. rewrite (writeNote_run w noteName l o) by done.
  unfold ran.
  repeat match goal with
         | |- context [if ?b then _ else _] => destruct b
         | |- context [match ?r with Ret _ => _ | Throw _ => _ end] => destruct r
         end; simpl; eauto.
Qed.

(** ** The merge of the environment *)




(** The example of the specification: FOO is set to old, the note gives
    FOO and BAR the value new. *)
Example merge_keeps_existing :
  let st := state_of [(js "FOO", js "old")] empty_object in
  let out := setEnvFromNote found_world (js "App.env") (Some 0%nat) st in
  out.1 = Ret tt
  /\ process_env out.2 !! js "FOO" = Some (js "old")
  /\ process_env out.2 !! js "BAR" = Some (js "new").
Proof. vm_compute. done. Qed.

Example merge_overwrites :
  let st := state_of [(js "FOO", js "old")]
              (mkOptions (VBool true) VUndefined VUndefined VUndefined) in
  let out := setEnvFromNote found_world (js "App.env") (Some 0%nat) st in
  out.1 = Ret tt
  /\ process_env out.2 !! js "FOO" = Some (js "new")
  /\ process_env out.2 !! js "BAR" = Some (js "new").
Proof. vm_compute. done. Qed.

(** ** The options object *)

(** The final heap, whatever the course of the call. *)
Lemma setEnvFromNote_heap (w : World) (noteName : jsstring) (l : loc)
    (o : Options) (st : state) :
  noteName <> [] ->
  heap st !! l = Some o ->
  heap (setEnvFromNote w noteName (Some l) st).2
  = <[l := with_defaults o]> (heap st).
Proof.
  intros Hname Hl. rewrite (setEnvFromNote_run w noteName l o) by done.
  cbn zeta.
  assert (heap (after_read noteName l o st) !! l = Some (with_defaults o)) as Hl1
    by apply lookup_insert_eq.
  pose proof (writeNote_frame w noteName l (with_defaults o)
                (after_read noteName l o st) Hl1) as (_ & Hheap & _).
  repeat match goal with
         | |- context [if ?b then _ else _] => destruct b
         | |- context [match ?r with Ret _ => _ | Throw _ => _ end] => destruct r
         end; done.
Qed.

(** C10 (counterexample).  With an empty note name the function throws
    before it looks at the options: the object the caller passed, which
    omits [overwrite] and [timeout], is unchanged after the call. *)
Lemma setEnvFromNote_no_name_keeps_options :
  let st := state_of [] empty_object in
  let out := setEnvFromNote absent_world [] (Some 0%nat) st in
  out.1 = Throw (Error (js "You must supply a note name"))
  /\ heap out.2 !! 0%nat = Some empty_object
  /\ overwrite empty_object = VUndefined /\ timeout empty_object = VUndefined.
Proof. vm_compute. done. Qed.

(** C10 (amended).  The options object of the caller is an ordinary
    object, one that takes an assignment to its properties; an object that
    is frozen, sealed or not extensible is no [Options] and is left out.
    For every call with such an object and a note name that is not empty,
    the object is changed in place: after the call, whether it returned or
    threw, [overwrite] is [false] if it was [undefined] and [timeout] is
    5000 if it was [undefined]; a field the caller gave, and [template] and
    [templatePath], are as they were.  An object that omitted one of the
    two is therefore not the object it was. *)
Theorem setEnvFromNote_fills_defaults (w : World) (noteName : jsstring)
    (l : loc) (st : state) (o : Options)
    (Hname : noteName <> [])
    (Hopt : heap st !! l = Some o)
    (Homit : is_undefined (overwrite o) || is_undefined (timeout o) = true) :
  exists o',
    heap (setEnvFromNote w noteName (Some l) st).2 !! l = Some o'
    /\ overwrite o' = (if is_undefined (overwrite o) then VBool false
                       else overwrite o)
    /\ timeout o' = (if is_undefined (timeout o) then VNumber (Int 5000)
                     else timeout o)
    /\ template o' = template o /\ templatePath o' = templatePath o
    /\ o' <> o.
Proof.
  exists (with_defaults o). rewrite (setEnvFromNote_heap w noteName l o) by done.
  rewrite lookup_insert_eq. repeat split; try done.
  destruct o as [ow t tm tp]. simpl in Homit. unfold with_defaults. simpl.
  intros Heq. injection Heq as How Ht.
  destruct ow, t; simpl in *; congruence.
Qed.

Lemma setEnvFromNote_fills_defaults_witness :
  exists o',
    heap (setEnvFromNote absent_world (js "App.env") (Some 0%nat)
            (state_of [] empty_object)).2 !! 0%nat = Some o'
    /\ overwrite o' = VBool false
    /\ timeout o' = VNumber (Int 5000)
    /\ template o' = VUndefined /\ templatePath o' = VUndefined
    /\ o' <> empty_object.
Proof.
  apply (setEnvFromNote_fills_defaults absent_world (js "App.env") 0%nat
           (state_of [] empty_object) empty_object);
    [discriminate | reflexivity | reflexivity].
Defined.

(** ** Timeouts *)

(** The commands of a call, all under the timeout of the options object
    after the defaults. *)
Lemma setEnvFromNote_commands (w : World) (noteName : jsstring) (l : loc)
    (o : Options) (st : state) :
  noteName <> [] ->
  heap st !! l = Some o ->
  let out := setEnvFromNote w noteName (Some l) st in
  let read := (find_generic_password noteName, timeout (with_defaults o)) in
  new_commands st out.2 = [read]
  \/ exists contents,
       new_commands st out.2
       = [read; (add_generic_password noteName contents, timeout (with_defaults o))].
Proof.
  intros Hname Hl. cbn zeta.
  rewrite (setEnvFromNote_run w noteName l o) by done. cbn zeta.
  assert (heap (after_read noteName l o st) !! l = Some (with_defaults o)) as Hl1
    by apply lookup_insert_eq.
  pose proof (writeNote_frame w noteName l (with_defaults o)
                (after_read noteName l o st) Hl1) as (_ & _ & Hex).
  pose proof (new_commands_after_read noteName l o st) as Hread.
  repeat match goal with
         | |- context [if ?b then _ else _] => destruct b
         | |- context [match ?r with Ret _ => _ | Throw _ => _ end] => destruct r
         end; try (left; exact Hread).
  cbn zeta in Hex. destruct Hex as [Hex | [contents Hex]].
  - left. apply new_commands_app. rewrite Hex. done.
  - right. exists contents. apply new_commands_app. rewrite Hex.
    simpl. by rewrite <- app_assoc.
Qed.

(** C4 (counterexample).  The caller gives a template and no timeout, and
    the note does not exist.  The command that adds the note is run under
    5000 milliseconds, the default of the read path: [writeNote] gets the
    options object in which [setEnvFromNote] has stored the default. *)
Lemma writeNote_inherits_read_default :
  let o := mkOptions VUndefined VUndefined (VString (js "X=1")) VUndefined in
  let st := state_of [] o in
  let out := setEnvFromNote absent_world (js "n") (Some 0%nat) st in
  timeout o = VUndefined
  /\ executed out.2
     = [(find_generic_password (js "n"), VNumber (Int 5000));
        (add_generic_password (js "n") (js "X=1"), VNumber (Int 5000))].
Proof. vm_compute. done. Qed.

(** C4 (amended).  The read command runs under [options.timeout], which is
    5000 when the caller gives none.  [writeNote] itself has no default: it
    runs its command under [options.timeout] as it finds it.  Called by
    [setEnvFromNote] it finds the object with the default stored in it, so
    the write command of a call runs under the timeout of the read, the
    caller's own or 5000. *)
Theorem timeout_default_is_shared (w : World) (noteName : jsstring) (l : loc)
    (st : state) (o : Options)
    (Hname : noteName <> [])
    (Hopt : heap st !! l = Some o) :
  let t := if is_undefined (timeout o) then VNumber (Int 5000) else timeout o in
  (exists rest,
     new_commands st (setEnvFromNote w noteName (Some l) st).2
     = (find_generic_password noteName, t) :: rest
     /\ Forall (fun c => c.2 = t) rest)
  /\ Forall (fun c => c.2 = timeout o)
       (new_commands st (writeNote w noteName l st).2).
Proof.
  cbn zeta. change (if is_undefined (timeout o) then VNumber (Int 5000)
                    else timeout o) with (timeout (with_defaults o)).
  split.
  - destruct (setEnvFromNote_commands w noteName l o st Hname Hopt)
      as [Hc | [contents Hc]]; cbn zeta in Hc; rewrite Hc.
    + exists []. by split.
    + eexists. split; [done |]. by repeat constructor.
  - pose proof (writeNote_frame w noteName l o st Hopt) as (_ & _ & Hex).
    cbn zeta in Hex. destruct Hex as [Hex | [contents Hex]].
    + rewrite (new_commands_app _ _ []) by (by rewrite app_nil_r). constructor.
    + rewrite (new_commands_app _ _ _ Hex). by repeat constructor.
Qed.

Lemma timeout_default_is_shared_witness :
  let o := mkOptions VUndefined VUndefined (VString (js "X=1")) VUndefined in
  let st := state_of [] o in
  (exists rest,
     new_commands st (setEnvFromNote absent_world (js "n") (Some 0%nat) st).2
     = (find_generic_password (js "n"), VNumber (Int 5000)) :: rest
     /\ Forall (fun c => c.2 = VNumber (Int 5000)) rest)
  /\ Forall (fun c => c.2 = VUndefined)
       (new_commands st (writeNote absent_world (js "n") 0%nat st).2).
Proof.
  apply (timeout_default_is_shared absent_world (js "n") 0%nat
           (state_of [] (mkOptions VUndefined VUndefined (VString (js "X=1"))
                           VUndefined))
           (mkOptions VUndefined VUndefined (VString (js "X=1")) VUndefined));
    [discriminate | reflexivity].
Defined.

(** ** The note that is not found *)

(** C8 (counterexample).  The note does not exist.  First, the caller
    supplies the template as the empty string: the call returns normally
    and the only command run is the read; no write is issued, because
    [writeNote] takes an empty template for none.  Second, the caller
    supplies a template and the keychain refuses the new note: the write is
    issued and the call throws the exception of the write. *)
Lemma empty_template_writes_nothing :
  let o := mkOptions VUndefined VUndefined (VString []) VUndefined in
  let out := setEnvFromNote absent_world (js "n") (Some 0%nat) (state_of [] o) in
  let o2 := mkOptions VUndefined VUndefined (VString (js "X=1")) VUndefined in
  let out2 := setEnvFromNote refusing_world (js "n") (Some 0%nat)
                (state_of [] o2) in
  (is_undefined (template o) = false
   /\ out.1 = Ret tt
   /\ executed out.2 = [(find_generic_password (js "n"), VNumber (Int 5000))])
  /\ (out2.1 = Throw (ExecError (Some 1) None)
      /\ executed out2.2
         = [(find_generic_password (js "n"), VNumber (Int 5000));
            (add_generic_password (js "n") (js "X=1"), VNumber (Int 5000))]).
Proof. vm_compute. done. Qed.

(** C8 (amended).  The read reports that there is no such note (exit
    status 44).  If [template] and [templatePath] are both [undefined], the
    exception of the read is thrown on, the read is the only command run
    and the environment is as it was.  If [template] is a string that is
    not empty, or [template] is falsy and the file at a truthy
    [templatePath] is read, one write command is run after the read, with
    the contents [s] escaped; the call returns normally when that command
    succeeds and throws its exception otherwise; the environment is as it
    was. *)
Theorem setEnvFromNote_not_found (w : World) (noteName : jsstring) (l : loc)
    (e : exn) (st st2 : state) (o o2 : Options) (s : jsstring)
    (Hname : noteName <> [])
    (H44 : exn_status e = Some 44)
    (Hopt : heap st !! l = Some o)
    (Hread : child_process w (find_generic_password noteName)
               (timeout (with_defaults o)) = Throw e)
    (Hneither : is_undefined (template o) && is_undefined (templatePath o) = true)
    (Hopt2 : heap st2 !! l = Some o2)
    (Hread2 : child_process w (find_generic_password noteName)
                (timeout (with_defaults o2)) = Throw e)
    (Hsource : template o2 = VString s /\ s <> []
               \/ ToBoolean (template o2) = false
                  /\ ToBoolean (templatePath o2) = true
                  /\ exists file, fs_readFileSync w (templatePath o2) = Ret file
                                  /\ s = Buffer_toString (buffer_bytes file)) :
  let out := setEnvFromNote w noteName (Some l) st in
  let out2 := setEnvFromNote w noteName (Some l) st2 in
  let t2 := timeout (with_defaults o2) in
  let write := add_generic_password noteName (escapeDoubleQuotes s) in
  (out.1 = Throw e
   /\ process_env out.2 = process_env st
   /\ new_commands st out.2
      = [(find_generic_password noteName, timeout (with_defaults o))])
  /\ (out2.1 = match child_process w write t2 with
               | Ret _ => Ret tt
               | Throw e' => Throw e'
               end
      /\ process_env out2.2 = process_env st2
      /\ new_commands st2 out2.2
         = [(find_generic_password noteName, t2); (write, t2)]).
Proof.
  cbn zeta. split.
  - rewrite (setEnvFromNote_run w noteName l o) by done. cbn zeta.
    rewrite Hread, bool_decide_eq_true_2, Hneither by done.
    split; [done |]. split; [done |]. apply new_commands_after_read.
  - rewrite (setEnvFromNote_run w noteName l o2) by done. cbn zeta.
    rewrite Hread2, bool_decide_eq_true_2 by done.
    assert (heap (after_read noteName l o2 st2) !! l = Some (with_defaults o2))
      as Hl1 by apply lookup_insert_eq.
    rewrite (writeNote_run w noteName l (with_defaults o2)) by done.
    change (template (with_defaults o2)) with (template o2).
    change (templatePath (with_defaults o2)) with (templatePath o2).
    assert (forall c env hp, new_commands st2
              (mkState env hp (executed (after_read noteName l o2 st2) ++ [c]))
            = [(find_generic_password noteName, timeout (with_defaults o2)); c])
      as Hcmds.
    { intros c env hp. apply new_commands_app. simpl. by rewrite <- app_assoc. }
    destruct Hsource as [[Htmpl Hs] | (Htmpl & Hpath & file & Hfile & ->)].
    + rewrite Htmpl. simpl.
      rewrite (bool_decide_eq_false_2 (s = [])) by done. simpl.
      unfold ran. cbn [fst snd process_env]. unfold mbind, result_bind.
      split; [done |]. split; [done |]. apply Hcmds.
    + rewrite Htmpl, Hpath, Hfile.
      assert (is_undefined (template o2) && is_undefined (templatePath o2) = false)
        as ->.
      { destruct (templatePath o2); simpl in Hpath |- *;
          try discriminate Hpath; by rewrite andb_false_r. }
      unfold ran. cbn [fst snd process_env]. unfold mbind, result_bind.
      split; [done |]. split; [done |]. apply Hcmds.
Qed.

Lemma setEnvFromNote_not_found_witness :
  let st := state_of [(js "FOO", js "old")] empty_object in
  let st2 := state_of [(js "FOO", js "old")]
               (mkOptions VUndefined VUndefined (VString (js "X=1")) VUndefined) in
  let out := setEnvFromNote absent_world (js "App.env") (Some 0%nat) st in
  let out2 := setEnvFromNote absent_world (js "App.env") (Some 0%nat) st2 in
  (out.1 = Throw no_such_note
   /\ process_env out.2 = process_env st
   /\ new_commands st out.2
      = [(find_generic_password (js "App.env"), VNumber (Int 5000))])
  /\ (out2.1 = Ret tt
      /\ process_env out2.2 = process_env st2
      /\ new_commands st2 out2.2
         = [(find_generic_password (js "App.env"), VNumber (Int 5000));
            (add_generic_password (js "App.env") (js "X=1"), VNumber (Int 5000))]).
Proof.
  apply (setEnvFromNote_not_found absent_world (js "App.env") 0%nat no_such_note
           (state_of [(js "FOO", js "old")] empty_object)
           (state_of [(js "FOO", js "old")]
              (mkOptions VUndefined VUndefined (VString (js "X=1")) VUndefined))
           empty_object
           (mkOptions VUndefined VUndefined (VString (js "X=1")) VUndefined)
           (js "X=1"));
    [discriminate | reflexivity | reflexivity | reflexivity | reflexivity
    | reflexivity | reflexivity | left; split; [reflexivity | discriminate]].
Defined.

(** ** The outcomes of a call *)

Lemma new_commands_self (st : state) (env : gmap jsstring jsstring)
    (hp : gmap loc Options) :
  new_commands st (mkState env hp (executed st)) = [].
Proof. apply new_commands_app. simpl. by rewrite app_nil_r. Qed.

(** The outcomes of a call on an options object, all cases told apart. *)
Lemma setEnvFromNote_outcomes_object (w : World) (noteName : jsstring)
    (l : loc) (st : state) (o : Options) :
  heap st !! l = Some o ->
  let out := setEnvFromNote w noteName (Some l) st in
  listed_outcome w noteName (with_defaults o) st out.1 out.2
  \/ nothing_written w noteName (with_defaults o) st out.1 out.2.
Proof.
  intros Hl. cbn zeta. destruct noteName as [|c noteName].
  { left. rewrite setEnvFromNote_no_name. eapply failed_unchanged; [done..|].
    left. destruct st. apply new_commands_self. }
  set (name := c :: noteName).
  rewrite (setEnvFromNote_run w name l o) by done. cbn zeta.
  pose proof (new_commands_after_read name l o st) as Hcmd.
  destruct (child_process w (find_generic_password name)
              (timeout (with_defaults o))) as [stdout|e] eqn:Hread.
  { destruct (noteFromPList w (decodeHex stdout) ≫= dotenv_parse w)
      as [vars|e] eqn:Hparse; left.
    - by eapply fully_merged.
    - eapply failed_unchanged; eauto. }
  case_bool_decide as H44; [|left; eapply failed_unchanged; eauto].
  destruct (is_undefined (template o) && is_undefined (templatePath o))
    eqn:Hundef; [left; eapply failed_unchanged; eauto |].
  assert (heap (after_read name l o st) !! l = Some (with_defaults o)) as Hl1
    by apply lookup_insert_eq.
  rewrite (writeNote_run w name l (with_defaults o)) by done.
  change (template (with_defaults o)) with (template o).
  change (templatePath (with_defaults o)) with (templatePath o).
  assert (forall contents,
            listed_outcome w name (with_defaults o) st
              (ran w (add_generic_password name contents)
                 (timeout (with_defaults o)) (after_read name l o st)).1
              (ran w (add_generic_password name contents)
                 (timeout (with_defaults o)) (after_read name l o st)).2)
    as Hwrite.
  { intros contents. eapply write_attempted; eauto.
    apply new_commands_app. simpl. by rewrite <- app_assoc. }
  destruct (ToBoolean (template o)) eqn:Htmpl.
  { left. destruct (escape_contents (template o)) as [escaped|e'];
      [apply Hwrite | eapply failed_unchanged; eauto]. }
  destruct (ToBoolean (templatePath o)) eqn:Hpath.
  { left. destruct (fs_readFileSync w (templatePath o)) as [file|e'];
      [apply Hwrite | eapply failed_unchanged; eauto]. }
  right. exists e. by repeat split.
Qed.

(** A failure of the read other than status 44, a timeout for one, is the
    failure of the call, and nothing else has happened. *)
Lemma setEnvFromNote_read_failure (w : World) (noteName : jsstring) (l : loc)
    (st : state) (o : Options) (e : exn) :
  noteName <> [] ->
  heap st !! l = Some o ->
  child_process w (find_generic_password noteName) (timeout (with_defaults o))
  = Throw e ->
  exn_status e <> Some 44 ->
  let out := setEnvFromNote w noteName (Some l) st in
  out.1 = Throw e /\ process_env out.2 = process_env st
  /\ new_commands st out.2
     = [(find_generic_password noteName, timeout (with_defaults o))].
Proof.
  intros Hname Hl Hread H44. cbn zeta.
  rewrite (setEnvFromNote_run w noteName l o) by done. cbn zeta.
  rewrite Hread, bool_decide_eq_false_2 by done.
  split; [done |]. split; [done |]. apply new_commands_after_read.
Qed.




(** ** [noteFromPList] *)

(** C3 (counterexample).  The text has the preamble and its dictionary is
    empty, so there is no NOTE to extract.  [noteFromPList] signals no
    error: it returns [undefined]. *)
Lemma noteFromPList_missing_NOTE_returns_undefined :
  contains empty_dict_plist plistPreamble
  /\ plist_parse absent_world empty_dict_plist = Ret (VObject [])
  /\ noteFromPList absent_world empty_dict_plist = Ret VUndefined.
Proof.
  split; [by exists xml_declaration, empty_dict_body |]. by vm_compute.
Qed.

(** C3 (amended).  For every text that contains the preamble and from which
    no NOTE can be extracted, [noteFromPList] does not return the raw text,
    and it has no error of its own to signal: an exception of the parser
    is thrown on as it is, [undefined] and [null] as the parsed value give
    the [TypeError] of the property access, and an object without NOTE, or
    any other value, gives [undefined] as the result. *)
Theorem noteFromPList_extraction_failure (w : World) (text : jsstring)
    (Hpre : contains text plistPreamble)
    (Hfail : extraction_fails (plist_parse w text) = true) :
  noteFromPList w text <> Ret (VString text)
  /\ noteFromPList w text
     = match plist_parse w text with
       | Throw e => Throw e
       | Ret VUndefined | Ret VNull => Throw TypeError
       | Ret _ => Ret VUndefined
       end.
Proof.
  apply indexOf_contains, Z.leb_le in Hpre. unfold noteFromPList.
  rewrite Hpre. unfold mbind, result_bind.
  destruct (plist_parse w text) as [[| | | | |props]|e]; simpl; try done.
  simpl in Hfail. apply bool_decide_eq_true in Hfail. by rewrite Hfail.
Qed.

Lemma noteFromPList_extraction_failure_witness :
  noteFromPList absent_world empty_dict_plist <> Ret (VString empty_dict_plist)
  /\ noteFromPList absent_world empty_dict_plist = Ret VUndefined.
Proof.
  apply (noteFromPList_extraction_failure absent_world empty_dict_plist);
    [by exists xml_declaration, empty_dict_body | reflexivity].
Defined.

(** C7.  A text that contains the preamble and whose parsed property list
    has the NOTE [v] gives exactly [v]; a text that does not contain the
    preamble is returned as it is. *)
Theorem noteFromPList_unwraps (w : World) (text raw : jsstring)
    (props : list (jsstring * value)) (v : value)
    (Hpre : contains text plistPreamble)
    (Hparse : plist_parse w text = Ret (VObject props))
    (Hnote : own_property props NOTE = Some v)
    (Hraw : ~ contains raw plistPreamble) :
  noteFromPList w text = Ret v /\ noteFromPList w raw = Ret (VString raw).
Proof.
  apply indexOf_contains, Z.leb_le in Hpre.
  apply indexOf_not_contains, Z.leb_gt in Hraw.
  unfold noteFromPList. rewrite Hpre, Hraw, Hparse. simpl. by rewrite Hnote.
Qed.

Lemma noteFromPList_unwraps_witness :
  noteFromPList absent_world (note_plist (js "A=1")) = Ret (VString (js "A=1"))
  /\ noteFromPList absent_world (js "A=1") = Ret (VString (js "A=1")).
Proof.
  apply (noteFromPList_unwraps absent_world (note_plist (js "A=1")) (js "A=1")
           [(NOTE, VString (js "A=1"))] (VString (js "A=1")));
    [by exists xml_declaration, (note_dict_body (js "A=1"))
    | reflexivity | reflexivity
    | apply indexOf_not_contains; reflexivity].
Defined.

(** * Further properties of the functions *)

(** ** [decodeHex] *)

Lemma isHexDigit_cases (a : N) :
  isHexDigit a = true -> In a hex_digits.
Proof.
  unfold isHexDigit, hexDigitValue. intros Ha%bool_decide_eq_true.
  assert (48 <= a <= 57 \/ 97 <= a <= 102 \/ 65 <= a <= 70)%N as Hrange.
  { destruct (N.leb_spec 48 a), (N.leb_spec a 57), (N.leb_spec 97 a),
      (N.leb_spec a 102), (N.leb_spec 65 a), (N.leb_spec a 70);
      simpl in Ha; try lia; by destruct Ha. }
  clear Ha. vm_compute.
  assert (a = 48 \/ a = 49 \/ a = 50 \/ a = 51 \/ a = 52 \/ a = 53 \/ a = 54
          \/ a = 55 \/ a = 56 \/ a = 57 \/ a = 97 \/ a = 98 \/ a = 99
          \/ a = 100 \/ a = 101 \/ a = 102 \/ a = 65 \/ a = 66 \/ a = 67
          \/ a = 68 \/ a = 69 \/ a = 70)%N as Hcases by lia.
  clear Hrange. intuition (subst; auto 30).
Qed.

(** Two hexadecimal digits, of either case each, give their value. *)
Lemma pair_byte_hex_digits (a b : N) :
  isHexDigit a = true -> isHexDigit b = true ->
  pair_byte [a; b] = hex_pair_value [a; b].
Proof.
  intros Ha%isHexDigit_cases Hb%isHexDigit_cases.
  vm_compute in Ha, Hb.
  repeat (destruct Ha as [<- | Ha]; [| try contradiction]);
    repeat (destruct Hb as [<- | Hb]; [| try contradiction]);
    reflexivity.
Qed.

(** X1.  On a string of hexadecimal digits, capitals and small letters
    mixed at will, [decodeHex] stores for every pair the byte sixteen
    times the first digit plus the second. *)
Theorem decodeHex_bytes_hex_digits (s : jsstring)
    (Hdigits : forallb isHexDigit s = true) :
  decodeHex_bytes s = map hex_pair_value (full_pairs s).
Proof.
  rewrite decodeHex_bytes_pairs. revert Hdigits.
  induction s as [s IH] using (induction_ltof1 _ length). unfold ltof in IH.
  destruct s as [|a [|b r]]; [done | done |]. cbn [forallb full_pairs map].
  intros [Ha [Hb Hr]%andb_true_iff]%andb_true_iff.
  rewrite IH by (done || (simpl; lia)). by rewrite pair_byte_hex_digits.
Qed.

Lemma decodeHex_bytes_hex_digits_witness :
  decodeHex_bytes (js "4aFf0") = map hex_pair_value (full_pairs (js "4aFf0")).
Proof. apply (decodeHex_bytes_hex_digits (js "4aFf0")). reflexivity. Defined.

(** X2.  Decoding goes pair by pair: after a string of even length the
    bytes of what follows are appended to the bytes of the string. *)
Theorem decodeHex_bytes_app (s t : jsstring)
    (Heven : Nat.even (length s) = true) :
  decodeHex_bytes (s ++ t) = decodeHex_bytes s ++ decodeHex_bytes t.
Proof.
  apply Nat.even_spec in Heven.
  by rewrite !decodeHex_bytes_pairs, full_pairs_app, map_app.
Qed.

Lemma decodeHex_bytes_app_witness :
  decodeHex_bytes (js "413d" ++ js "31")
  = decodeHex_bytes (js "413d") ++ decodeHex_bytes (js "31").
Proof. apply (decodeHex_bytes_app (js "413d") (js "31")). reflexivity. Defined.

(** One hexadecimal digit followed by a character that is none: [parseInt]
    stops at the character and gives the digit alone (for the digit 0 and
    the letter x, the prefix of a hexadecimal literal, it finds no digit,
    which is stored as 0 all the same). *)
Lemma pair_byte_one_digit (d x : N) :
  isHexDigit d = true -> isHexDigit x = false ->
  pair_byte [d; x] = default 0 (hexDigitValue d).
Proof.
  intros Hd%isHexDigit_cases Hx%isHexDigit_false.
  assert (isStrWhiteSpaceChar d = false /\ (d =? 45)%N = false
          /\ (d =? 43)%N = false
          /\ exists v, hexDigitValue d = Some v /\ 0 <= v < 16
                       /\ ((d =? 48)%N = true -> v = 0)) as Hfacts.
  { vm_compute in Hd.
    repeat (destruct Hd as [<- | Hd]; [| try contradiction]);
      (split; [reflexivity |]); (split; [reflexivity |]);
      (split; [reflexivity |]); eexists; (split; [reflexivity |]);
      (split; [by vm_compute |]); by vm_compute. }
  destruct Hfacts as (Hws & H45 & H43 & v & Hv & Hrange & Hzero).
  unfold pair_byte, parseInt16. cbn [trimStart]. rewrite Hws, H45, H43, Hv.
  destruct ((d =? 48)%N && ((x =? 120)%N || (x =? 88)%N)) eqn:Hprefix.
  - apply andb_true_iff in Hprefix as [Hd0 _]. cbn. by rewrite Hzero.
  - cbn [digitsPrefix]. rewrite Hv, Hx. cbn [fold_left ToUint8 default].
    unfold id. rewrite Z.mod_small; lia.
Qed.

(** X3.  A pair of a hexadecimal digit and a character that is none is
    not rejected: after a string of even length it adds the byte of the
    digit alone, and the character is ignored. *)
Theorem decodeHex_bytes_one_digit (s : jsstring) (d x : N)
    (Heven : Nat.even (length s) = true)
    (Hd : isHexDigit d = true) (Hx : isHexDigit x = false) :
  decodeHex_bytes (s ++ [d; x])
  = decodeHex_bytes s ++ [default 0 (hexDigitValue d)].
Proof.
  apply Nat.even_spec in Heven.
  rewrite !decodeHex_bytes_pairs, full_pairs_app, map_app by done.
  cbn [full_pairs map]. by rewrite pair_byte_one_digit.
Qed.

Lemma decodeHex_bytes_one_digit_witness :
  decodeHex_bytes (js "41" ++ [55%N; 122%N]) = decodeHex_bytes (js "41") ++ [7].
Proof.
  apply (decodeHex_bytes_one_digit (js "41") 55 122); reflexivity.
Defined.

(** On a buffer of bytes below 0x80 the loop does what it does on the
    string of the same codes. *)
Lemma decodeHex_loop_buffer (bs : Buffer) (fuel i : nat) (a : Uint8Array) :
  Forall (fun b => 0 <= b <= 0x7f) bs ->
  decodeHex_loop fuel (BufferOf bs) i a
  = decodeHex_loop fuel (map Z.to_N bs) i a.
Proof.
  intros Hascii. revert i a. induction fuel as [|fuel IH]; intros i a; [done |].
  cbn [decodeHex_loop src_length src_slice src_toString string_HexSource
       buffer_HexSource buffer_bytes id].
  rewrite length_map, IH. unfold slice.
  rewrite Buffer_toString_ascii by (by apply Forall_take, Forall_drop).
  by rewrite <- List.firstn_map, <- List.skipn_map.
Qed.

Lemma decodeHex_buffer_ascii (bs : Buffer) :
  Forall (fun b => 0 <= b <= 0x7f) bs ->
  decodeHex (BufferOf bs) = decodeHex (map Z.to_N bs).
Proof.
  intros Hascii. unfold decodeHex, decodeHex_bytes.
  cbn [src_length string_HexSource buffer_HexSource buffer_bytes].
  by rewrite length_map, decodeHex_loop_buffer.
Qed.

Lemma hexEncodeByte_ascii (upper : bool) (b : byte) :
  forallb (fun c => (c <? 128)%N) (hexEncodeByte upper b) = true.
Proof. destruct upper, b; reflexivity. Qed.

Lemma hexEncode_ascii (upper : bool) (bs : list byte) :
  Forall (fun c => (c < 128)%N) (hexEncode upper bs).
Proof.
  unfold hexEncode. induction bs as [|b bs IH]; [constructor |].
  cbn [map concat]. apply Forall_app. split; [|done].
  pose proof (hexEncodeByte_ascii upper b) as Hb.
  rewrite forallb_forall in Hb. apply Forall_forall. intros c Hc.
  apply list_elem_of_In, Hb, N.ltb_lt in Hc. done.
Qed.

Lemma hexEncode_length (upper : bool) (bs : list byte) :
  length (hexEncode upper bs) = (2 * length bs)%nat.
Proof.
  unfold hexEncode. induction bs as [|b bs IH]; [done |].
  cbn [map concat]. rewrite length_app, IH. simpl. lia.
Qed.

(** X4.  What [setEnvFromNote] hands to [decodeHex] is the output of the
    tool as a buffer: the hexadecimal digits of the bytes of the note and
    a line feed.  For every sequence of bytes and either case of the
    digits the result is the UTF-8 text of the bytes; the line feed, a
    last character without a partner, leaves no trace. *)
Theorem decodeHex_of_security_output (upper : bool) (bs : list byte) :
  decodeHex (buffer_of_text (hexEncode upper bs ++ [newline]))
  = Buffer_toString (map byte_value bs).
Proof.
  unfold buffer_of_text. rewrite decodeHex_buffer_ascii.
  - rewrite map_map. rewrite (map_ext _ id) by (intros c; apply N2Z.id).
    rewrite map_id, decodeHex_pairs, full_pairs_app.
    + cbn [full_pairs]. rewrite app_nil_r, full_pairs_hexEncode, map_map.
      f_equal. apply map_ext. intros b. apply pair_byte_hexEncodeByte.
    + exists (length bs). rewrite hexEncode_length. lia.
  - apply Forall_forall. intros z Hz.
    apply list_elem_of_In, in_map_iff in Hz as [c [<- Hc]].
    apply in_app_or in Hc as [Hc | [<- | []]]; [|unfold newline; lia].
    pose proof (hexEncode_ascii upper bs) as Hall.
    rewrite Forall_forall in Hall. apply list_elem_of_In, Hall in Hc. lia.
Qed.

(** ** [escapeDoubleQuotes] *)

(** X5.  Whatever the input, no double quote of the output ends the
    double-quoted word the output is put in: as a shell scans it, every
    double quote of the output is taken by a backslash before it. *)
Theorem escapeDoubleQuotes_no_bare_quote (s : jsstring) :
  bare_quote (escapeDoubleQuotes s) = false.
Proof.
  induction s as [s IH] using (induction_ltof1 _ length). unfold ltof in IH.
  destruct s as [|c rest]; [done |]. cbn [escapeDoubleQuotes].
  destruct (c =? backslash)%N eqn:Hbs.
  - apply N.eqb_eq in Hbs as ->. destruct rest as [|d rest']; [done |].
    cbn [bare_quote]. rewrite N.eqb_refl. apply IH. simpl. lia.
  - destruct (c =? dquote)%N eqn:Hdq.
    + cbn [bare_quote]. rewrite N.eqb_refl. apply IH. simpl. lia.
    + cbn [bare_quote]. rewrite Hbs, Hdq. apply IH. simpl. lia.
Qed.

(** X6.  The escaper works through a text piece by piece: when the first
    piece has no backslash, the escaped text is the escaped first piece
    followed by the escaped rest.  (A backslash at the end of the first
    piece would take the first character of the rest with it.) *)
Theorem escapeDoubleQuotes_app (s t : jsstring)
    (Hs : forallb (fun c => negb (c =? backslash)%N) s = true) :
  escapeDoubleQuotes (s ++ t) = escapeDoubleQuotes s ++ escapeDoubleQuotes t.
Proof.
  induction s as [|c s IH]; [done |]. cbn [forallb] in Hs.
  apply andb_true_iff in Hs as [Hc%negb_true_iff Hs].
  cbn [app escapeDoubleQuotes]. rewrite Hc, IH by done.
  by destruct (c =? dquote)%N.
Qed.

Lemma escapeDoubleQuotes_app_witness :
  escapeDoubleQuotes (js "A=" ++ quoted (js "1"))
  = escapeDoubleQuotes (js "A=") ++ escapeDoubleQuotes (quoted (js "1")).
Proof.
  apply (escapeDoubleQuotes_app (js "A=") (quoted (js "1"))). reflexivity.
Defined.

(** X7.  The escaper only adds characters, at most one for each character
    of the input: the output is at least as long as the input and at most
    twice as long. *)
Theorem escapeDoubleQuotes_length (s : jsstring) :
  (length s <= length (escapeDoubleQuotes s) <= 2 * length s)%nat.
Proof.
  induction s as [s IH] using (induction_ltof1 _ length). unfold ltof in IH.
  destruct s as [|c rest]; [simpl; lia |]. cbn [escapeDoubleQuotes].
  destruct (c =? backslash)%N.
  - destruct rest as [|d rest']; [simpl; lia |].
    specialize (IH rest'). simpl in *. lia.
  - specialize (IH rest). destruct (c =? dquote)%N; simpl in *; lia.
Qed.

(** X8.  The command of [writeNote] puts a double quote after the escaped
    contents.  For contents without dollar and backquote, which start an
    expansion with quoting of its own, and read on from the opening quote
    of the argument: that quote ends the word exactly when the contents do
    not end in a backslash left without a partner, and exactly then the
    shell reads the escaped contents as a literal; when they do end in
    one, the backslash comes out as it is and takes the closing quote. *)
Theorem escapeDoubleQuotes_closing_quote (s : jsstring)
    (Hs : forallb no_expansion s = true) :
  bare_quote (escapeDoubleQuotes s ++ [dquote]) = negb (dangling_backslash s)
  /\ (is_Some (shell_dquoted (escapeDoubleQuotes s))
      <-> dangling_backslash s = false).
Proof.
  induction s as [s IH] using (induction_ltof1 _ length). unfold ltof in IH.
  destruct s as [|c rest]; [by split; [| split; [| eexists]] |].
  cbn [escapeDoubleQuotes dangling_backslash].
  apply andb_true_iff in Hs as [Hc Hrest].
  destruct (c =? backslash)%N eqn:Hbs.
  - apply N.eqb_eq in Hbs as ->. destruct rest as [|d rest'].
    { split; [done |]. split; [by intros [? ?] | done]. }
    apply andb_true_iff in Hrest as [Hd Hrest'].
    destruct (IH rest') as [IH1 IH2]; [simpl; lia | done |].
    split; [cbn [app bare_quote]; by rewrite N.eqb_refl |].
    cbn [shell_dquoted]. rewrite N.eqb_refl.
    destruct (shell_special d); [by rewrite fmap_is_Some |].
    destruct (d =? newline)%N; [done | by rewrite fmap_is_Some].
  - destruct (IH rest) as [IH1 IH2]; [simpl; lia | done |].
    destruct (c =? dquote)%N eqn:Hdq.
    + split; [cbn [app bare_quote]; by rewrite N.eqb_refl |].
      cbn [shell_dquoted]. rewrite N.eqb_refl.
      replace (shell_special dquote) with true by done.
      by rewrite fmap_is_Some.
    + split; [cbn [app bare_quote]; by rewrite Hbs, Hdq |].
      cbn [shell_dquoted]. rewrite Hbs, Hdq.
      unfold no_expansion in Hc. apply negb_true_iff in Hc.
      rewrite orb_false_l, Hc. by rewrite fmap_is_Some.
Qed.

Lemma escapeDoubleQuotes_closing_quote_witness :
  (bare_quote (escapeDoubleQuotes (js "A=" ++ quoted (js "1") ++ [backslash])
               ++ [dquote])
   = negb (dangling_backslash (js "A=" ++ quoted (js "1") ++ [backslash]))
   /\ (is_Some (shell_dquoted
                  (escapeDoubleQuotes (js "A=" ++ quoted (js "1") ++ [backslash])))
       <-> dangling_backslash (js "A=" ++ quoted (js "1") ++ [backslash]) = false))
  /\ dangling_backslash (js "A=" ++ quoted (js "1") ++ [backslash]) = true.
Proof.
  split; [| reflexivity].
  apply (escapeDoubleQuotes_closing_quote
           (js "A=" ++ quoted (js "1") ++ [backslash])).
  reflexivity.
Defined.

(** ** [setEnvFromNote] and [writeNote] *)

Lemma with_defaults_idempotent (o : Options) :
  with_defaults (with_defaults o) = with_defaults o.
Proof. destruct o as [[] [] ? ?]; reflexivity. Qed.

Lemma merge_env_idempotent (ow : bool) (vars : list (jsstring * jsstring))
    (env : gmap jsstring jsstring) :
  merge_env ow vars (merge_env ow vars env) = merge_env ow vars env.
Proof.
  apply map_eq. intros k. rewrite !merge_env_lookup.
  destruct (own_property vars k) as [v|]; [|done]. unfold merged.
  destruct (env !! k) as [x|] eqn:Hk, ow, (inherited k); simpl;
    by rewrite ?Hk.
Qed.

(** X9.  A call that found and merged the note can be repeated: the
    second call returns normally as well and leaves the environment and
    the options object as the first call left them. *)
Theorem setEnvFromNote_twice (w : World) (noteName : jsstring) (l : loc)
    (st : state) (o : Options) (stdout : NodeBuffer)
    (vars : list (jsstring * jsstring))
    (Hname : noteName <> [])
    (Hopt : heap st !! l = Some o)
    (Hread : child_process w (find_generic_password noteName)
               (timeout (with_defaults o)) = Ret stdout)
    (Hparse : noteFromPList w (decodeHex stdout) ≫= dotenv_parse w = Ret vars) :
  let out1 := setEnvFromNote w noteName (Some l) st in
  let out2 := setEnvFromNote w noteName (Some l) out1.2 in
  out1.1 = Ret tt /\ out2.1 = Ret tt
  /\ process_env out2.2 = process_env out1.2
  /\ heap out2.2 = heap out1.2.
Proof.
  cbn zeta. rewrite (setEnvFromNote_run w noteName l o st) by done.
  cbn zeta. rewrite Hread, Hparse. cbn [fst snd].
  rewrite (setEnvFromNote_run w noteName l (with_defaults o));
    [| done | apply lookup_insert_eq].
  cbn zeta. rewrite with_defaults_idempotent, Hread, Hparse.
  cbn [fst snd process_env heap after_read].
  rewrite ?with_defaults_idempotent.
  split; [done |]. split; [done |].
  split; [apply merge_env_idempotent | apply insert_insert_eq].
Qed.

Lemma setEnvFromNote_twice_witness :
  let st := state_of [(js "FOO", js "old")] empty_object in
  let out1 := setEnvFromNote found_world (js "App.env") (Some 0%nat) st in
  let out2 := setEnvFromNote found_world (js "App.env") (Some 0%nat) out1.2 in
  out1.1 = Ret tt /\ out2.1 = Ret tt
  /\ process_env out2.2 = process_env out1.2
  /\ heap out2.2 = heap out1.2.
Proof.
  apply (setEnvFromNote_twice found_world (js "App.env") 0%nat
           (state_of [(js "FOO", js "old")] empty_object) empty_object
           (BufferOf (map Z.of_N (js "464f4f3d6e65770a4241523d6e65770a") ++ [10]))
           [(js "FOO", js "new"); (js "BAR", js "new")]);
    [discriminate | reflexivity | reflexivity | reflexivity].
Defined.

(** The environment after a call: as it was, or the merge of a note. *)
Lemma setEnvFromNote_env (w : World) (noteName : jsstring)
    (options_arg : option loc) (st : state) (o : Options) :
  match options_arg with
  | Some l => heap st !! l = Some o
  | None => o = empty_object
  end ->
  let out := setEnvFromNote w noteName options_arg st in
  process_env out.2 = process_env st
  \/ exists vars,
       process_env out.2
       = merge_env (ToBoolean (overwrite o)) vars (process_env st).
Proof.
  assert (forall l st0, heap st0 !! l = Some o ->
            let out := setEnvFromNote w noteName (Some l) st0 in
            process_env out.2 = process_env st0
            \/ exists vars,
                 process_env out.2
                 = merge_env (ToBoolean (overwrite o)) vars (process_env st0))
    as Hobject.
  { intros l st0 Hl. cbn zeta.
    destruct (setEnvFromNote_outcomes_object w noteName l st0 o Hl)
      as [[stdout vars _ _ _ Henv _ | ? ? _ _ _ Henv _ | ? _ Henv _]
         | (? & _ & _ & _ & _ & _ & _ & Henv & _)]; eauto.
    right. exists vars. by rewrite <- ToBoolean_overwrite_default. }
  intros Harg. destruct options_arg as [l|]; [by apply Hobject |].
  rewrite setEnvFromNote_default. cbn zeta.
  apply (Hobject (fresh (dom (heap st)))
           (mkState (process_env st)
              (<[fresh (dom (heap st)) := empty_object]> (heap st))
              (executed st))).
  subst o. apply lookup_insert_eq.
Qed.

(** X10.  No call removes a variable from the environment: a variable that
    is set before a call is set after it, whatever the call did and
    however it ended. *)
Theorem setEnvFromNote_never_unsets (w : World) (noteName : jsstring)
    (options_arg : option loc) (st : state) (o : Options)
    (k v : jsstring)
    (Harg : match options_arg with
            | Some l => heap st !! l = Some o
            | None => o = empty_object
            end)
    (Hset : process_env st !! k = Some v) :
  is_Some (process_env (setEnvFromNote w noteName options_arg st).2 !! k).
Proof.
  destruct (setEnvFromNote_env w noteName options_arg st o Harg)
    as [-> | [vars ->]]; [eauto |].
  rewrite merge_env_lookup, Hset. unfold merged.
  destruct (own_property vars k), (ToBoolean (overwrite o)); eauto.
Qed.

Lemma setEnvFromNote_never_unsets_witness :
  is_Some (process_env
             (setEnvFromNote found_world (js "App.env") (Some 0%nat)
                (state_of [(js "FOO", js "old")]
                   (mkOptions (VBool true) VUndefined VUndefined VUndefined))).2
           !! js "FOO").
Proof.
  apply (setEnvFromNote_never_unsets found_world (js "App.env") (Some 0%nat)
           (state_of [(js "FOO", js "old")]
              (mkOptions (VBool true) VUndefined VUndefined VUndefined))
           (mkOptions (VBool true) VUndefined VUndefined VUndefined)
           (js "FOO") (js "old")); reflexivity.
Defined.

(** X11.  When [overwrite] is falsy, [undefined] included, no call changes
    the value of a variable that is set: whatever the note says and
    however the call ends, the variable has the value it had. *)
Theorem setEnvFromNote_keeps_existing (w : World) (noteName : jsstring)
    (options_arg : option loc) (st : state) (o : Options)
    (k v : jsstring)
    (Harg : match options_arg with
            | Some l => heap st !! l = Some o
            | None => o = empty_object
            end)
    (Hoverwrite : ToBoolean (overwrite o) = false)
    (Hset : process_env st !! k = Some v) :
  process_env (setEnvFromNote w noteName options_arg st).2 !! k = Some v.
Proof.
  destruct (setEnvFromNote_env w noteName options_arg st o Harg)
    as [-> | [vars ->]]; [done |].
  rewrite merge_env_lookup, Hset. unfold merged. rewrite Hoverwrite.
  by destruct (own_property vars k).
Qed.

Lemma setEnvFromNote_keeps_existing_witness :
  process_env
    (setEnvFromNote found_world (js "App.env") None
       (state_of [(js "FOO", js "old")] empty_object)).2 !! js "FOO"
  = Some (js "old").
Proof.
  apply (setEnvFromNote_keeps_existing found_world (js "App.env") None
           (state_of [(js "FOO", js "old")] empty_object) empty_object
           (js "FOO") (js "old")); reflexivity.
Defined.

(** X16.  A name that every object inherits from [Object.prototype],
    constructor or toString for one, is never [undefined] in
    [process.env].  When the note is found and gives such a name a value,
    no variable of the name is set and [overwrite] is falsy, the loop skips
    the key: the call returns normally and the variable is still unset. *)
Theorem setEnvFromNote_skips_inherited (w : World) (noteName : jsstring)
    (l : loc) (st : state) (o : Options) (stdout : NodeBuffer) (note : value)
    (vars : list (jsstring * jsstring)) (k v : jsstring)
    (Hname : noteName <> [])
    (Hopt : heap st !! l = Some o)
    (Hread : child_process w (find_generic_password noteName)
               (timeout (with_defaults o)) = Ret stdout)
    (Hnote : noteFromPList w (decodeHex stdout) = Ret note)
    (Hvars : dotenv_parse w note = Ret vars)
    (Hk : inherited k = true)
    (Hin : own_property vars k = Some v)
    (Hunset : process_env st !! k = None)
    (How : ToBoolean (overwrite o) = false) :
  let out := setEnvFromNote w noteName (Some l) st in
  out.1 = Ret tt /\ process_env out.2 !! k = None.
Proof.
  cbn zeta. rewrite (setEnvFromNote_run w noteName l o) by done. cbn zeta.
  rewrite Hread, Hnote. unfold mbind, result_bind. rewrite Hvars.
  rewrite ToBoolean_overwrite_default. cbn [fst snd process_env].
  split; [done |].
  rewrite merge_env_lookup, Hin, Hunset. unfold merged. by rewrite Hk, How.
Qed.

Lemma setEnvFromNote_skips_inherited_witness :
  let st := state_of [(js "FOO", js "old")] empty_object in
  let out := setEnvFromNote constructor_world (js "App.env") (Some 0%nat) st in
  out.1 = Ret tt /\ process_env out.2 !! js "constructor" = None.
Proof.
  apply (setEnvFromNote_skips_inherited constructor_world (js "App.env") 0%nat
           (state_of [(js "FOO", js "old")] empty_object) empty_object
           (buffer_of_hex_text (js "constructor=x"))
           (VString (js "constructor=x"))
           [(js "constructor", js "x")] (js "constructor") (js "x"));
    [discriminate | reflexivity ..].
Defined.

(** X13.  A truthy [template] that is not a string has no [replace]:
    [writeNote] throws a [TypeError] and no command is run; [templatePath]
    is not looked at. *)
Theorem writeNote_template_not_a_string (w : World) (noteName : jsstring)
    (l : loc) (st : state) (o : Options)
    (Hopt : heap st !! l = Some o)
    (Htruthy : ToBoolean (template o) = true)
    (Hkind : match template o with VString _ => false | _ => true end = true) :
  writeNote w noteName l st = (Throw TypeError, st).
Proof.
  rewrite (writeNote_run w noteName l o) by done. rewrite Htruthy.
  by destruct (template o).
Qed.

Lemma writeNote_template_not_a_string_witness :
  writeNote absent_world (js "n") 0%nat
    (state_of [] (mkOptions VUndefined VUndefined (VNumber (Int 1))
                    (VString (js "file"))))
  = (Throw TypeError,
     state_of [] (mkOptions VUndefined VUndefined (VNumber (Int 1))
                    (VString (js "file")))).
Proof.
  apply (writeNote_template_not_a_string absent_world (js "n") 0%nat
           (state_of [] (mkOptions VUndefined VUndefined (VNumber (Int 1))
                           (VString (js "file"))))
           (mkOptions VUndefined VUndefined (VNumber (Int 1))
              (VString (js "file")))); reflexivity.
Defined.

(** X14.  When [template] is falsy and the file at [templatePath] cannot be
    read, [writeNote] throws the exception of [readFileSync] and no command
    is run. *)
Theorem writeNote_unreadable_file (w : World) (noteName : jsstring)
    (l : loc) (st : state) (o : Options) (e : exn)
    (Hopt : heap st !! l = Some o)
    (Htemplate : ToBoolean (template o) = false)
    (Hpath : ToBoolean (templatePath o) = true)
    (Hfile : fs_readFileSync w (templatePath o) = Throw e) :
  writeNote w noteName l st = (Throw e, st).
Proof.
  rewrite (writeNote_run w noteName l o) by done.
  by rewrite Htemplate, Hpath, Hfile.
Qed.

Lemma writeNote_unreadable_file_witness :
  writeNote absent_world (js "n") 0%nat
    (state_of [] (mkOptions VUndefined VUndefined VUndefined
                    (VString (js "file"))))
  = (Throw (LibraryError (js "fs")),
     state_of [] (mkOptions VUndefined VUndefined VUndefined
                    (VString (js "file")))).
Proof.
  apply (writeNote_unreadable_file absent_world (js "n") 0%nat
           (state_of [] (mkOptions VUndefined VUndefined VUndefined
                           (VString (js "file"))))
           (mkOptions VUndefined VUndefined VUndefined (VString (js "file")))
           (LibraryError (js "fs"))); reflexivity.
Defined.

(** X15.  A note that was read but cannot be unwrapped or parsed makes the
    call throw the exception of the library.  Nothing is merged, and no
    template is written in its place, whatever the template options: the
    read is the only command run. *)
Theorem setEnvFromNote_unparsable_note (w : World) (noteName : jsstring)
    (l : loc) (st : state) (o : Options) (stdout : NodeBuffer) (e : exn)
    (Hname : noteName <> [])
    (Hopt : heap st !! l = Some o)
    (Hread : child_process w (find_generic_password noteName)
               (timeout (with_defaults o)) = Ret stdout)
    (Hparse : noteFromPList w (decodeHex stdout) ≫= dotenv_parse w = Throw e) :
  let out := setEnvFromNote w noteName (Some l) st in
  out.1 = Throw e
  /\ process_env out.2 = process_env st
  /\ new_commands st out.2
     = [(find_generic_password noteName, timeout (with_defaults o))].
Proof.
  cbn zeta. rewrite (setEnvFromNote_run w noteName l o) by done.
  cbn zeta. rewrite Hread, Hparse.
  split; [done |]. split; [done |]. apply new_commands_after_read.
Qed.

Lemma setEnvFromNote_unparsable_note_witness :
  let o := mkOptions VUndefined VUndefined (VString (js "X=1")) VUndefined in
  let st := state_of [(js "FOO", js "old")] o in
  let out := setEnvFromNote garbled_world (js "App.env") (Some 0%nat) st in
  out.1 = Throw (LibraryError (js "plist"))
  /\ process_env out.2 = process_env st
  /\ new_commands st out.2
     = [(find_generic_password (js "App.env"), VNumber (Int 5000))].
Proof.
  apply (setEnvFromNote_unparsable_note garbled_world (js "App.env") 0%nat
           (state_of [(js "FOO", js "old")]
              (mkOptions VUndefined VUndefined (VString (js "X=1")) VUndefined))
           (mkOptions VUndefined VUndefined (VString (js "X=1")) VUndefined)
           (buffer_of_hex_text plistPreamble) (LibraryError (js "plist")));
    [discriminate | reflexivity | reflexivity | by vm_compute].
Defined.
